(** * vf_static_mask: a shallow embedding of libavfilter/vf_static_mask.c

    The filter keeps, for the last [frame_back] frames, one 64-bit sum per
    block of the picture; a block whose sum moved by less than the threshold
    since the frame [frame_back] calls ago is painted (16,128,128).

    Conventions of the embedding:
    - C [int] values are mathematical integers ([Z]); the places where the
      C arithmetic is not the mathematical one are written out: the
      [uint64_t] accumulator wraps modulo 2^64, the argument of [abs] is
      converted to a 32-bit [int], [abs (INT_MIN)], division by zero and
      [frame_count++] at [INT_MAX] are faults.  Pixel addresses and loop
      counters are not checked for overflow: the host refuses pictures whose
      address arithmetic does not fit an [int].
    - undefined behaviour and non-termination are results of their own
      ([Fault]), never a value.
    - a plane is the list of the bytes that start at [data[k]]; an access
      outside the list is a fault.
    - the double [threshold] is a rational number (every finite double is
      one, and an [int] converts to a double exactly). *)

From Stdlib Require Import ZArith QArith Lia.
From stdpp Require Import base list.

Local Open Scope Z_scope.

(** ** Results of C code *)

Inductive fault : Set :=
  | DivisionByZero
  | OutOfBounds
  | NullDereference
  | UseAfterFree
  | InvalidFree
  | SignedOverflow
  | NoProgress.

Inductive outcome (A : Type) : Type :=
  | Ok (a : A)
  | Fault (e : fault).

Arguments Ok {A} a.
Arguments Fault {A} e.

#[export] Instance outcome_ret : MRet outcome := fun A a => Ok a.
#[export] Instance outcome_bind : MBind outcome := fun A B k m =>
  match m with
  | Ok a => k a
  | Fault e => Fault e
  end.

(** [for (v = init; cond (v); v += step) body], run for at most [fuel]
    iterations; a loop that wants more never ends in C. *)
Fixpoint for_fuel {S : Type} (fuel : nat) (v : Z) (cond : Z → bool) (step : Z)
    (body : Z → S → outcome S) (st : S) : outcome S :=
  if cond v then
    match fuel with
    | O => Fault NoProgress
    | Datatypes.S n => st' ← body v st; for_fuel n (v + step) cond step body st'
    end
  else Ok st.

(** ** Machine arithmetic *)

Definition INT_MAX : Z := 2147483647.
Definition INT_MIN : Z := -2147483648.

(** [uint64_t] arithmetic. *)
Definition u64 (x : Z) : Z := x mod 2 ^ 64.

(** Conversion of an integer to [int]: the low 32 bits, two's complement. *)
Definition to_int (x : Z) : Z := (x + 2 ^ 31) mod 2 ^ 32 - 2 ^ 31.

(** [int abs (int)]. *)
Definition c_abs (v : Z) : outcome Z :=
  if v =? INT_MIN then Fault SignedOverflow else Ok (Z.abs v).

(** [a / b] on [int]. *)
Definition c_div (a b : Z) : outcome Z :=
  if b =? 0 then Fault DivisionByZero else Ok (Z.quot a b).

(** [a % b] on [int]. *)
Definition c_mod (a b : Z) : outcome Z :=
  if b =? 0 then Fault DivisionByZero else Ok (Z.rem a b).

(** [n < t] with [n] an [int] and [t] a [double]. *)
Definition lt_double (n : Z) (t : Q) : bool := negb (Qle_bool t (inject_Z n)).

(** ** Pictures *)

Record AVFrame : Type := mkFrame {
  width : Z;
  height : Z;
  data0 : list Z;
  data1 : list Z;
  data2 : list Z;
  linesize0 : Z;
  linesize1 : Z;
  linesize2 : Z
}.

Definition load (buf : list Z) (idx : Z) : outcome Z :=
  if idx <? 0 then Fault OutOfBounds
  else match buf !! Z.to_nat idx with
       | Some v => Ok v
       | None => Fault OutOfBounds
       end.

Definition store (buf : list Z) (idx : Z) (v : Z) : outcome (list Z) :=
  if (0 <=? idx) && (idx <? Z.of_nat (length buf))
  then Ok (<[Z.to_nat idx := v]> buf)
  else Fault OutOfBounds.

Definition set_data0 (f : AVFrame) (d : list Z) : AVFrame :=
  mkFrame (width f) (height f) d (data1 f) (data2 f)
          (linesize0 f) (linesize1 f) (linesize2 f).
Definition set_data1 (f : AVFrame) (d : list Z) : AVFrame :=
  mkFrame (width f) (height f) (data0 f) d (data2 f)
          (linesize0 f) (linesize1 f) (linesize2 f).
Definition set_data2 (f : AVFrame) (d : list Z) : AVFrame :=
  mkFrame (width f) (height f) (data0 f) (data1 f) d
          (linesize0 f) (linesize1 f) (linesize2 f).

(** ** The filter's private context *)

(** One row of [prev_sums]: the pointer [prev_sums[i]]. *)
Inductive slot : Type :=
  | SlotUninit                    (* never assigned: av_malloc_array does not clear *)
  | SlotLive (cells : list Z)     (* points to an array of uint64_t *)
  | SlotFreed.                    (* was passed to av_free *)

(** The pointer [prev_sums] itself. *)
Inductive ring : Type :=
  | RingNull
  | RingLive (slots : list slot)
  | RingFreed (slots : list slot). (* dangling; [slots] records what the rows were *)

Record static_maskContext : Type := mkCtx {
  size : Z;
  threshold : Q;
  frame_back : Z;
  prev_sums : ring;
  prev_width : Z;
  prev_height : Z;
  frame_count : Z
}.

Definition set_prev_sums (s : static_maskContext) (r : ring) : static_maskContext :=
  mkCtx (size s) (threshold s) (frame_back s) r
        (prev_width s) (prev_height s) (frame_count s).

(** [s->prev_sums[bi][rc]] as an rvalue. *)
Definition ring_read (r : ring) (bi rc : Z) : outcome Z :=
  match r with
  | RingNull => Fault NullDereference
  | RingFreed _ => Fault UseAfterFree
  | RingLive slots =>
      if bi <? 0 then Fault OutOfBounds
      else match slots !! Z.to_nat bi with
           | None => Fault OutOfBounds
           | Some SlotUninit => Fault NullDereference
           | Some SlotFreed => Fault UseAfterFree
           | Some (SlotLive cells) => load cells rc
           end
  end.

(** [s->prev_sums[bi][rc] = v]. *)
Definition ring_write (r : ring) (bi rc v : Z) : outcome ring :=
  match r with
  | RingNull => Fault NullDereference
  | RingFreed _ => Fault UseAfterFree
  | RingLive slots =>
      if bi <? 0 then Fault OutOfBounds
      else match slots !! Z.to_nat bi with
           | None => Fault OutOfBounds
           | Some SlotUninit => Fault NullDereference
           | Some SlotFreed => Fault UseAfterFree
           | Some (SlotLive cells) =>
               cells' ← store cells rc v;
               Ok (RingLive (<[Z.to_nat bi := SlotLive cells']> slots))
           end
  end.

(** ** filter_frame *)

(** Lines 76-82: the sum of one block, read from the picture as it is now. *)
Definition sum_pixel (f : AVFrame) (j i : Z) (sum : Z) : outcome Z :=
  y ← load (data0 f) (j * linesize0 f + i);
  u ← load (data1 f) (Z.quot j 2 * linesize1 f + Z.quot i 2);
  v ← load (data2 f) (Z.quot j 2 * linesize2 f + Z.quot i 2);
  Ok (u64 (u64 (u64 (sum + y) + u) + v)).

Definition block_sum (sz : Z) (f : AVFrame) (x y : Z) : outcome Z :=
  for_fuel (Z.to_nat sz) y (fun j => (j <? y + sz) && (j <? height f)) 1
    (fun j sum =>
       for_fuel (Z.to_nat sz) x (fun i => (i <? x + sz) && (i <? width f)) 1
         (fun i sum => sum_pixel f j i sum) sum)
    0.

(** Lines 86-92: paint one block. *)
Definition mask_pixel (j i : Z) (f : AVFrame) : outcome AVFrame :=
  d0 ← store (data0 f) (j * linesize0 f + i) 16;
  let f := set_data0 f d0 in
  d1 ← store (data1 f) (Z.quot j 2 * linesize1 f + Z.quot i 2) 128;
  let f := set_data1 f d1 in
  d2 ← store (data2 f) (Z.quot j 2 * linesize2 f + Z.quot i 2) 128;
  Ok (set_data2 f d2).

Definition mask_block (sz : Z) (f : AVFrame) (x y : Z) : outcome AVFrame :=
  for_fuel (Z.to_nat sz) y (fun j => (j <? y + sz) && (j <? height f)) 1
    (fun j f =>
       for_fuel (Z.to_nat sz) x (fun i => (i <? x + sz) && (i <? width f)) 1
         (fun i f => mask_pixel j i f) f)
    f.

(** What the comparison of line 85 saw and decided for one block.  The list
    of these is returned next to the C results; nothing in the model reads
    it. *)
Record comparison : Type := mkCmp {
  c_x : Z;
  c_y : Z;
  c_cell : Z;
  c_prev : Z;
  c_sum : Z;
  c_delta : Z;
  c_norm : Z;
  c_masked : bool
}.

(** The mutable state of the two block loops. *)
Record loop_state : Type := mkLoop {
  l_ring : ring;
  l_frame : AVFrame;
  range_counter : Z;
  l_log : list comparison
}.

(** Line 85, left of [<]: [abs (sum - prev) / (size * size / 10)]. *)
Definition abs_delta (sum prev : Z) : outcome Z :=
  c_abs (to_int (u64 (sum - prev))).

Definition norm_divisor (sz : Z) : Z := Z.quot (sz * sz) 10.

Definition normalized (sz sum prev : Z) : outcome Z :=
  d ← abs_delta sum prev;
  c_div d (norm_divisor sz).

(** Lines 74-97: the body of the block loops. *)
Definition process_block (sz : Z) (thr : Q) (buffer_index : Z) (y x : Z)
    (st : loop_state) : outcome loop_state :=
  let f := l_frame st in
  let rc := range_counter st in
  sum ← block_sum sz f x y;
  prev ← ring_read (l_ring st) buffer_index rc;
  d ← abs_delta sum prev;
  n ← c_div d (norm_divisor sz);
  let m := lt_double n thr in
  f' ← (if m then mask_block sz f x y else Ok f);
  r' ← ring_write (l_ring st) buffer_index rc sum;
  Ok (mkLoop r' f' (rc + 1) (l_log st ++ [mkCmp x y rc prev sum d n m])).

(** Lines 62-105.  [ff_filter_frame] hands the picture to the next filter;
    the picture is part of the result. *)
Definition filter_frame (s : static_maskContext) (frame : AVFrame)
    : outcome (static_maskContext * AVFrame * list comparison) :=
  buffer_index ← c_mod (frame_count s) (frame_back s);
  st ← for_fuel (Z.to_nat (height frame)) 0 (fun y => y <? height frame) (size s)
         (fun y st =>
            for_fuel (Z.to_nat (width frame)) 0 (fun x => x <? width frame) (size s)
              (fun x st => process_block (size s) (threshold s) buffer_index y x st)
              st)
         (mkLoop (prev_sums s) frame 0 []);
  if frame_count s =? INT_MAX then Fault SignedOverflow
  else Ok (mkCtx (size s) (threshold s) (frame_back s) (l_ring st)
                 (prev_width s) (prev_height s) (frame_count s + 1),
           l_frame st, l_log st).

(** ** config_input *)

Definition ENOMEM : Z := 12.
Definition AVERROR (e : Z) : Z := - e.

(** Lines 107-126.  [alloc k] tells whether the [k]-th allocation request of
    the call is granted: request 0 is the array of rows, request [i + 1] is
    row [i].  The result is the return code and the context as the call
    leaves it. *)
Definition config_input (alloc : nat → bool) (w h : Z) (s : static_maskContext)
    : outcome (Z * static_maskContext) :=
  pw ← c_div (w + size s - 1) (size s);
  ph ← c_div (h + size s - 1) (size s);
  let s1 := mkCtx (size s) (threshold s) (frame_back s) (prev_sums s) pw ph
                  (frame_count s) in
  if negb (alloc O) then Ok (AVERROR ENOMEM, set_prev_sums s1 RingNull)
  else
    let rows0 := replicate (Z.to_nat (frame_back s)) SlotUninit in
    '(rows, failed) ← for_fuel (Z.to_nat (frame_back s)) 0
            (fun i => i <? frame_back s) 1
            (fun i (st : list slot * bool) =>
               let '(rows, failed) := st in
               if failed then Ok st
               else if alloc (Datatypes.S (Z.to_nat i))
               then Ok (<[Z.to_nat i := SlotLive (replicate (Z.to_nat (pw * ph)) 0)]>
                          rows, false)
               else Ok (rows, true))
            (rows0, false);
    if (failed : bool) then Ok (AVERROR ENOMEM, set_prev_sums s1 (RingLive rows))
    else Ok (0, mkCtx (size s) (threshold s) (frame_back s) (RingLive rows) pw ph 0).

(** ** uninit *)

(** [av_free (s->prev_sums[i])]. *)
Definition av_free_slot (sl : slot) : outcome slot :=
  match sl with
  | SlotLive _ => Ok SlotFreed
  | SlotFreed => Fault InvalidFree     (* released twice *)
  | SlotUninit => Fault InvalidFree    (* an indeterminate pointer *)
  end.

(** Lines 128-136.  [av_free] does not clear the pointer it is given: after
    the call [prev_sums] still holds the old address. *)
Definition uninit (s : static_maskContext) : outcome static_maskContext :=
  match prev_sums s with
  | RingNull => Ok s
  | RingFreed _ =>
      if 0 <? frame_back s then Fault UseAfterFree else Fault InvalidFree
  | RingLive slots =>
      rows ← for_fuel (Z.to_nat (frame_back s)) 0 (fun i => i <? frame_back s) 1
               (fun i rows =>
                  match rows !! Z.to_nat i with
                  | None => Fault OutOfBounds
                  | Some sl =>
                      sl' ← av_free_slot sl;
                      Ok (<[Z.to_nat i := sl']> rows)
                  end)
               slots;
      Ok (set_prev_sums s (RingFreed rows))
  end.

(** The options table, lines 39-44: default, minimum, maximum. *)
Record AVOption_range : Type := mkRange {
  opt_default : Q;
  opt_min : Q;
  opt_max : Q
}.

Definition opt_size : AVOption_range := mkRange 20 0 600.
Definition opt_threshold : AVOption_range := mkRange 20 0 1000.
Definition opt_frame_back : AVOption_range := mkRange 1 1 100.

(** * Loops as folds over the values of the counter *)

Fixpoint run_over {S : Type} (body : Z → S → outcome S) (vs : list Z) (st : S)
    : outcome S :=
  match vs with
  | [] => Ok st
  | v :: vs => st' ← body v st; run_over body vs st'
  end.

(** [v, v + step, ...], [n] values. *)
Fixpoint steps (n : nat) (v step : Z) : list Z :=
  match n with
  | O => []
  | Datatypes.S n => v :: steps n (v + step) step
  end.

(** The pixels of one axis of a block: [from, from + 1, ...] below
    [from + sz] and below the picture's [bound]. *)
Definition span (sz bound from : Z) : list Z :=
  steps (Z.to_nat (Z.min (from + sz) bound - from)) from 1.

(** The block origins along one axis: [0, sz, 2 sz, ...] below [bound]. *)
Definition origins (sz bound : Z) : list Z :=
  steps (Z.to_nat ((bound + sz - 1) / sz)) 0 sz.


(** * Pictures as samples *)

Definition byte (v : Z) : Prop := 0 ≤ v ≤ 255.

Definition peek (buf : list Z) (idx : Z) : Z := default 0 (buf !! Z.to_nat idx).

(** The luma sample of pixel (i, j), and the chroma samples at chroma
    coordinates (ci, cj). *)
Definition luma (f : AVFrame) (i j : Z) : Z := peek (data0 f) (j * linesize0 f + i).
Definition cb (f : AVFrame) (ci cj : Z) : Z := peek (data1 f) (cj * linesize1 f + ci).
Definition cr (f : AVFrame) (ci cj : Z) : Z := peek (data2 f) (cj * linesize2 f + ci).

(** A picture the host may deliver: three planes of bytes, the chroma
    planes at least half the size of the luma plane (rounded up). *)
Record frame_ok (f : AVFrame) : Prop := mkFrameOk {
  ok_w : 0 < width f;
  ok_h : 0 < height f;
  ok_ls0 : width f ≤ linesize0 f;
  ok_len0 : height f * linesize0 f ≤ Z.of_nat (length (data0 f));
  ok_ls1 : (width f + 1) / 2 ≤ linesize1 f;
  ok_len1 : (height f + 1) / 2 * linesize1 f ≤ Z.of_nat (length (data1 f));
  ok_ls2 : (width f + 1) / 2 ≤ linesize2 f;
  ok_len2 : (height f + 1) / 2 * linesize2 f ≤ Z.of_nat (length (data2 f));
  ok_b0 : Forall byte (data0 f);
  ok_b1 : Forall byte (data1 f);
  ok_b2 : Forall byte (data2 f)
}.

Definition same_shape (f f' : AVFrame) : Prop :=
  width f' = width f ∧ height f' = height f ∧
  linesize0 f' = linesize0 f ∧ linesize1 f' = linesize1 f ∧
  linesize2 f' = linesize2 f ∧
  length (data0 f') = length (data0 f) ∧
  length (data1 f') = length (data1 f) ∧
  length (data2 f') = length (data2 f).

(** The chroma sample (ci, cj) is the one of the luma pixels (2ci, 2cj),
    (2ci+1, 2cj), (2ci, 2cj+1) and (2ci+1, 2cj+1). *)
Definition chroma_of (P : Z → Z → bool) (ci cj : Z) : bool :=
  P (2 * ci) (2 * cj) || P (2 * ci + 1) (2 * cj) ||
  P (2 * ci) (2 * cj + 1) || P (2 * ci + 1) (2 * cj + 1).

(** [f'] is [f] with the pixels of [P] painted (16, 128, 128). *)
Definition painted (P : Z → Z → bool) (f f' : AVFrame) : Prop :=
  same_shape f f' ∧
  (∀ i j, 0 ≤ i < width f → 0 ≤ j < height f →
     luma f' i j = if P i j then 16 else luma f i j) ∧
  (∀ ci cj, 0 ≤ ci < (width f + 1) / 2 → 0 ≤ cj < (height f + 1) / 2 →
     cb f' ci cj = (if chroma_of P ci cj then 128 else cb f ci cj) ∧
     cr f' ci cj = (if chroma_of P ci cj then 128 else cr f ci cj)).

(** Pixel (i, j) lies in the block of origin (x, y), clipped to the
    picture. *)
Definition covers (sz w h x y i j : Z) : bool :=
  (x <=? i) && (i <? x + sz) && (i <? w) &&
  (y <=? j) && (j <? y + sz) && (j <? h).

Definition zsum (g : Z → Z) (vs : list Z) : Z := foldr (fun v a => g v + a) 0 vs.

(** What one pixel adds to the sum of its block. *)
Definition pix (f : AVFrame) (j i : Z) : Z :=
  luma f i j + cb f (i / 2) (j / 2) + cr f (i / 2) (j / 2).

(** The sum of the block of origin (x, y): luma and both chroma samples of
    every pixel of the clipped block. *)
Definition bsum (sz : Z) (f : AVFrame) (x y : Z) : Z :=
  zsum (fun j => zsum (fun i => pix f j i) (span sz (width f) x))
       (span sz (height f) y).

(** The largest sum of a block of side [sz]. *)
Definition SUM_MAX (sz : Z) : Z := 765 * sz * sz.

(** * The block loops *)

(** The blocks in the order in which the loops visit them, as (y, x). *)
Definition blocks (sz w h : Z) : list (Z * Z) :=
  y ← origins sz h; (fun x => (y, x)) <$> origins sz w.

Fixpoint run_blocks {S : Type} (body : Z → Z → S → outcome S)
    (bs : list (Z * Z)) (st : S) : outcome S :=
  match bs with
  | [] => Ok st
  | (y, x) :: bs => st' ← body y x st; run_blocks body bs st'
  end.

(** Pixel (i, j) lies in a block that a comparison of [log] painted. *)
Definition masked_at (sz w h : Z) (log : list comparison) (i j : Z) : bool :=
  existsb (fun r => c_masked r && covers sz w h (c_x r) (c_y r) i j) log.

(** What is known of the [k]-th comparison of a call on picture [f0] with
    [cells0] the row of the ring that the call reads. *)
Record entry_ok (sz : Z) (thr : Q) (f0 : AVFrame) (cells0 : list Z)
    (log : list comparison) (k : nat) (r : comparison) : Prop := mkEntryOk {
  e_cell : c_cell r = Z.of_nat k;
  e_prev : cells0 !! k = Some (c_prev r);
  e_sum : ∃ fk, painted (masked_at sz (width f0) (height f0) (take k log)) f0 fk ∧
                frame_ok fk ∧ c_sum r = bsum sz fk (c_x r) (c_y r);
  e_sum_range : 0 ≤ c_sum r ≤ SUM_MAX sz;
  e_delta : c_delta r = Z.abs (c_sum r - c_prev r);
  e_norm : c_norm r = c_delta r / (sz * sz / 10);
  e_masked : c_masked r = lt_double (c_norm r) thr
}.

(** The state of the block loops after the blocks [done]. *)
Record block_inv (sz : Z) (thr : Q) (f0 : AVFrame) (slots0 : list slot)
    (b : nat) (cells0 : list Z) (done : list (Z * Z)) (st : loop_state)
    : Prop := mkBlockInv {
  bi_rc : range_counter st = Z.of_nat (length done);
  bi_origins : (fun r => (c_y r, c_x r)) <$> l_log st = done;
  bi_ring : l_ring st =
            RingLive (<[b := SlotLive ((c_sum <$> l_log st)
                                       ++ drop (length done) cells0)]> slots0);
  bi_frame_ok : frame_ok (l_frame st);
  bi_painted : painted (masked_at sz (width f0) (height f0) (l_log st)) f0
                       (l_frame st);
  bi_entries : ∀ k r, l_log st !! k = Some r →
                      entry_ok sz thr f0 cells0 (l_log st) k r
}.

(** The number of blocks of a picture. *)
Definition block_count (sz w h : Z) : nat := length (blocks sz w h).

(** A context that [config_input] set up for pictures of [w] by [h] and
    that has seen some pictures since: [rows] are the rows of the ring. *)
Record ctx_ok (w h : Z) (rows : list (list Z)) (s : static_maskContext)
    : Prop := mkCtxOk {
  k_size : 4 ≤ size s ≤ 600;
  k_back : 1 ≤ frame_back s;
  k_count : 0 ≤ frame_count s ≤ INT_MAX;
  k_ring : prev_sums s = RingLive (SlotLive <$> rows);
  k_rows : length rows = Z.to_nat (frame_back s);
  k_cells : Forall (fun cells => length cells = block_count (size s) w h ∧
                                Forall (fun c => 0 ≤ c ≤ SUM_MAX (size s)) cells)
                   rows
}.

(** The row of the ring that a call reads and writes. *)
Definition buffer_index (s : static_maskContext) : nat :=
  Z.to_nat (frame_count s mod frame_back s).

(** The context after a call that made the comparisons [log]. *)
Definition ctx_after (s : static_maskContext) (rows : list (list Z))
    (log : list comparison) : static_maskContext :=
  mkCtx (size s) (threshold s) (frame_back s)
        (RingLive (SlotLive <$> <[buffer_index s := c_sum <$> log]> rows))
        (prev_width s) (prev_height s) (frame_count s + 1).

(** What a call of [filter_frame] on picture [f0] in context [s] returns:
    the context [s'], the picture [f'] and the comparisons [log]. *)
Record call_ok (s : static_maskContext) (rows : list (list Z)) (f0 : AVFrame)
    (s' : static_maskContext) (f' : AVFrame) (log : list comparison)
    : Prop := mkCallOk {
  r_ctx : s' = ctx_after s rows log;
  r_ctx_ok : ctx_ok (width f0) (height f0)
                    (<[buffer_index s := c_sum <$> log]> rows) s';
  r_frame_ok : frame_ok f';
  r_painted : painted (masked_at (size s) (width f0) (height f0) log) f0 f';
  r_blocks : (fun r => (c_y r, c_x r)) <$> log
             = blocks (size s) (width f0) (height f0);
  r_entries : ∃ cells0, rows !! buffer_index s = Some cells0 ∧
                ∀ k r, log !! k = Some r →
                       entry_ok (size s) (threshold s) f0 cells0 log k r
}.

(** * Sessions: config_input, then one call of filter_frame per picture *)

(** The host calls [filter_frame] once per picture, in order; the result is
    the last context and, per picture, what the call returned. *)
Fixpoint run (s : static_maskContext) (fs : list AVFrame)
    : outcome (static_maskContext * list (AVFrame * list comparison)) :=
  match fs with
  | [] => Ok (s, [])
  | f :: fs =>
      '(s1, f', log) ← filter_frame s f;
      '(s2, outs) ← run s1 fs;
      Ok (s2, (f', log) :: outs)
  end.

(** An allocator that grants every request. *)
Definition grant_all : nat → bool := fun _ => true.

(** The rows of the ring after the calls that made the comparisons [logs]:
    row [m mod K] holds the sums of call [m] for the last [K] calls, and the
    rows no call has written yet hold zeros. *)
Definition hist_inv (K N : nat) (logs : list (list comparison))
    (rows : list (list Z)) : Prop :=
  (∀ m log, logs !! m = Some log → (length logs ≤ m + K)%nat →
            rows !! (m mod K)%nat = Some (c_sum <$> log)) ∧
  (∀ b, (length logs ≤ b < K)%nat → rows !! b = Some (replicate N 0)).

(** Call number [length before] of a session: the call ran in a context
    that the session reached, on picture [f], and returned [out]. *)
Definition step_ok (w h sz : Z) (thr : Q) (K : nat)
    (before : list (list comparison)) (f : AVFrame)
    (out : AVFrame * list comparison) : Prop :=
  ∃ s rows s',
    ctx_ok w h rows s ∧ size s = sz ∧ threshold s = thr ∧
    frame_back s = Z.of_nat K ∧
    frame_count s = Z.of_nat (length before) ∧
    hist_inv K (block_count sz w h) before rows ∧
    filter_frame s f = Ok (s', out.1, out.2) ∧
    call_ok s rows f s' out.1 out.2.

(** The pictures of a session: all of the size given to [config_input]. *)
Definition frames_ok (w h : Z) (fs : list AVFrame) : Prop :=
  Forall (fun f => frame_ok f ∧ width f = w ∧ height f = h) fs.

(** * Concrete pictures and contexts *)

(** A picture of one colour, planes without padding, chroma at half
    resolution. *)
Definition picture (w h y u v : Z) : AVFrame :=
  mkFrame w h
    (replicate (Z.to_nat (h * w)) y)
    (replicate (Z.to_nat ((h + 1) / 2 * ((w + 1) / 2))) u)
    (replicate (Z.to_nat ((h + 1) / 2 * ((w + 1) / 2))) v)
    w ((w + 1) / 2) ((w + 1) / 2).

(** The context as the host hands it to [config_input]: cleared, with the
    options stored. *)
Definition fresh (sz : Z) (thr : Q) (K : Z) : static_maskContext :=
  mkCtx sz thr K RingNull 0 0 0.

(** * Properties of the pixels of a block *)

(** Pixel (i, j) is painted in [f']: luma 16, both chroma samples 128. *)
Definition pixel_painted (f' : AVFrame) (i j : Z) : Prop :=
  luma f' i j = 16 ∧ cb f' (i / 2) (j / 2) = 128 ∧ cr f' (i / 2) (j / 2) = 128.

(** Pixel (i, j) has in [f'] the luma and chroma samples it has in [f]. *)
Definition pixel_unchanged (f f' : AVFrame) (i j : Z) : Prop :=
  luma f' i j = luma f i j ∧
  cb f' (i / 2) (j / 2) = cb f (i / 2) (j / 2) ∧
  cr f' (i / 2) (j / 2) = cr f (i / 2) (j / 2).

(** The samples of every block are all painted when its normalized delta is
    below the threshold, and all unchanged otherwise. *)
Definition painted_or_unchanged (sz : Z) (thr : Q) (f f' : AVFrame)
    (log : list comparison) : Prop :=
  ∀ r i j, r ∈ log →
    covers sz (width f) (height f) (c_x r) (c_y r) i j = true →
    if lt_double (c_norm r) thr then pixel_painted f' i j
    else pixel_unchanged f f' i j.

(** Every block of a call was painted. *)
Definition all_masked (log : list comparison) : Prop :=
  Forall (fun r => c_masked r = true) log.

(** * The host's check of an option value *)

(** Modelled from the spec: the range check that the host applies to an
    option value before the filter is configured ("range checks on
    size/threshold/lookback"): the value is accepted when it lies between
    the minimum and the maximum of the option's entry in the table.  The
    table is the filter's (lines 39-44); the check itself is in
    libavutil/opt.c, which is not among the sources. *)
Definition option_accepts (o : AVOption_range) (v : Q) : bool :=
  Qle_bool (opt_min o) v && Qle_bool v (opt_max o).

(** * Proof steps *)

(** Linear arithmetic with divisions by constants. *)
Ltac div_lia := Z.to_euclidean_division_equations; lia.

(** One step of a computation that did not fault. *)
Ltac next := cbn [mbind outcome_bind mret outcome_ret].
(** * Lemmas on loops *)

Lemma length_steps n v step : length (steps n v step) = n.
Proof. revert v. induction n as [|n IH]; intros v; simpl; [done|]. by rewrite IH. Qed.

Lemma lookup_steps n v step (k : nat) :
  (k < n)%nat → steps n v step !! k = Some (v + step * Z.of_nat k).
Proof.
  revert v k. induction n as [|n IH]; intros v k Hk; [lia|].
  destruct k as [|k]; simpl.
  - f_equal. lia.
  - rewrite IH by lia. f_equal. lia.
Qed.

Lemma elem_of_steps n v step a :
  a ∈ steps n v step ↔ ∃ k : nat, (k < n)%nat ∧ a = v + step * Z.of_nat k.
Proof.
  split.
  - intros Ha. apply list_elem_of_lookup in Ha as [k Hk].
    assert (k < n)%nat as Hlt.
    { apply lookup_lt_Some in Hk. by rewrite length_steps in Hk. }
    rewrite lookup_steps in Hk by done. exists k. split; [done|]. congruence.
  - intros (k & Hk & ->). apply list_elem_of_lookup. exists k.
    by apply lookup_steps.
Qed.

Lemma for_fuel_steps {S : Type} (cond : Z → bool) (step : Z)
    (body : Z → S → outcome S) (n : nat) :
  ∀ (fuel : nat) (v : Z) (st : S),
    (n ≤ fuel)%nat →
    (∀ k : nat, (k < n)%nat → cond (v + step * Z.of_nat k) = true) →
    cond (v + step * Z.of_nat n) = false →
    for_fuel fuel v cond step body st = run_over body (steps n v step) st.
Proof.
  induction n as [|n IH]; intros fuel v st Hfuel Htrue Hfalse.
  - replace (v + step * Z.of_nat 0) with v in Hfalse by lia.
    destruct fuel; simpl; by rewrite Hfalse.
  - destruct fuel as [|fuel]; [lia|].
    simpl. specialize (Htrue O ltac:(lia)) as H0.
    replace (v + step * Z.of_nat 0) with v in H0 by lia. rewrite H0.
    destruct (body v st) as [st'|e]; simpl; [|done].
    apply IH; [lia| |].
    + intros k Hk. specialize (Htrue (Datatypes.S k) ltac:(lia)).
      rewrite <- Htrue. f_equal. lia.
    + rewrite <- Hfalse. f_equal. lia.
Qed.

Lemma span_loop {S : Type} (sz bound from : Z) (body : Z → S → outcome S) (st : S) :
  0 ≤ sz →
  for_fuel (Z.to_nat sz) from (fun i => (i <? from + sz) && (i <? bound)) 1 body st
  = run_over body (span sz bound from) st.
Proof.
  intros Hsz. unfold span. apply for_fuel_steps.
  - lia.
  - intros k Hk. apply andb_true_iff. split; apply Z.ltb_lt; lia.
  - apply andb_false_iff.
    destruct (Z.le_gt_cases (from + sz) bound); [left|right]; apply Z.ltb_ge; lia.
Qed.

Lemma origins_loop {S : Type} (sz bound : Z) (body : Z → S → outcome S) (st : S) :
  0 < sz → 0 ≤ bound →
  for_fuel (Z.to_nat bound) 0 (fun v => v <? bound) sz body st
  = run_over body (origins sz bound) st.
Proof.
  intros Hsz Hb. unfold origins. apply for_fuel_steps.
  - apply Z2Nat.inj_le; [apply Z.div_pos; lia|lia|].
    destruct (Z.eq_dec bound 0) as [->|Hne].
    + rewrite Z.div_small; lia.
    + apply Z.div_le_upper_bound; nia.
  - intros k Hk. apply Z.ltb_lt.
    assert (Z.of_nat k < (bound + sz - 1) / sz) as Hlt by lia.
    assert (Z.of_nat k + 1 ≤ (bound + sz - 1) / sz) as Hle by lia.
    assert (sz * (Z.of_nat k + 1) ≤ sz * ((bound + sz - 1) / sz)) as Hm by nia.
    pose proof (Z.mul_div_le (bound + sz - 1) sz Hsz). lia.
  - apply Z.ltb_ge. rewrite Z2Nat.id by (apply Z.div_pos; lia).
    pose proof (Z.mul_succ_div_gt (bound + sz - 1) sz Hsz). lia.
Qed.

Lemma elem_of_span sz bound from a :
  a ∈ span sz bound from ↔ from ≤ a < from + sz ∧ a < bound.
Proof.
  unfold span. rewrite elem_of_steps. split.
  - intros (k & Hk & ->). lia.
  - intros [H1 H2]. exists (Z.to_nat (a - from)). lia.
Qed.

Lemma length_span sz bound from :
  0 ≤ sz → Z.of_nat (length (span sz bound from)) ≤ sz.
Proof. intros. unfold span. rewrite length_steps. lia. Qed.

Lemma elem_of_origins sz bound a :
  0 < sz → a ∈ origins sz bound ↔ 0 ≤ a < bound ∧ a mod sz = 0.
Proof.
  intros Hsz. unfold origins. rewrite elem_of_steps. split.
  - intros (k & Hk & ->).
    assert (Z.of_nat k + 1 ≤ (bound + sz - 1) / sz) as Hle by lia.
    assert (sz * (Z.of_nat k + 1) ≤ sz * ((bound + sz - 1) / sz)) as Hm by nia.
    pose proof (Z.mul_div_le (bound + sz - 1) sz Hsz).
    split; [lia|]. rewrite Z.add_0_l, Z.mul_comm. by apply Z.mod_mul; lia.
  - intros [[H0 Hb] Hm]. exists (Z.to_nat (a / sz)).
    apply Z.mod_divide in Hm as [q ->]; [|lia].
    rewrite Z.div_mul by lia.
    assert (0 ≤ q) by nia.
    split; [|lia].
    apply Z2Nat.inj_lt; [lia|apply Z.div_pos; lia|].
    enough (q + 1 ≤ (bound + sz - 1) / sz) by lia.
    apply Z.div_le_lower_bound; [lia|]. nia.
Qed.

(** * Lemmas on planes and pictures *)


Lemma load_ok (buf : list Z) (idx : Z) :
  0 ≤ idx < Z.of_nat (length buf) → load buf idx = Ok (peek buf idx).
Proof.
  intros H. unfold load, peek.
  destruct (Z.ltb_spec idx 0); [lia|].
  destruct (buf !! Z.to_nat idx) eqn:E; [done|].
  apply lookup_ge_None in E. lia.
Qed.

Lemma store_ok (buf : list Z) (idx v : Z) :
  0 ≤ idx < Z.of_nat (length buf) → store buf idx v = Ok (<[Z.to_nat idx := v]> buf).
Proof.
  intros H. unfold store.
  destruct (Z.leb_spec 0 idx); [|lia].
  destruct (Z.ltb_spec idx (Z.of_nat (length buf))); [done|lia].
Qed.

Lemma peek_insert (buf : list Z) (idx idx' v : Z) :
  0 ≤ idx < Z.of_nat (length buf) → 0 ≤ idx' →
  peek (<[Z.to_nat idx := v]> buf) idx' = if idx' =? idx then v else peek buf idx'.
Proof.
  intros H H'. unfold peek. destruct (Z.eqb_spec idx' idx) as [->|Hne].
  - rewrite list_lookup_insert_eq by lia. done.
  - rewrite list_lookup_insert_ne by lia. done.
Qed.

Lemma peek_byte (buf : list Z) (idx : Z) : Forall byte buf → byte (peek buf idx).
Proof.
  intros H. unfold peek. destruct (buf !! Z.to_nat idx) eqn:E; simpl.
  - eapply Forall_lookup_1; eauto.
  - unfold byte. lia.
Qed.

Lemma insert_byte (buf : list Z) (k : nat) (v : Z) :
  byte v → Forall byte buf → Forall byte (<[k := v]> buf).
Proof. intros Hv H. by apply Forall_insert. Qed.

Lemma index_eqb (ls i j i' j' : Z) :
  0 ≤ i < ls → 0 ≤ i' < ls →
  (j' * ls + i' =? j * ls + i) = (i' =? i) && (j' =? j).
Proof.
  intros Hi Hi'.
  destruct (Z.eqb_spec (j' * ls + i') (j * ls + i)) as [E|E];
    destruct (Z.eqb_spec i' i) as [Ei|Ei];
    destruct (Z.eqb_spec j' j) as [Ej|Ej]; simpl; try done; try nia.
Qed.

Lemma luma_index (f : AVFrame) (i j : Z) :
  frame_ok f → 0 ≤ i < width f → 0 ≤ j < height f →
  0 ≤ j * linesize0 f + i < Z.of_nat (length (data0 f)).
Proof.
  intros [] Hi Hj.
  assert ((j + 1) * linesize0 f ≤ height f * linesize0 f) by nia. nia.
Qed.

Lemma chroma_index (w h ls len ci cj : Z) :
  (w + 1) / 2 ≤ ls → (h + 1) / 2 * ls ≤ len →
  0 ≤ ci < (w + 1) / 2 → 0 ≤ cj < (h + 1) / 2 →
  0 ≤ cj * ls + ci < len.
Proof.
  generalize ((w + 1) / 2) ((h + 1) / 2). intros W H Hls Hlen Hci Hcj.
  assert ((cj + 1) * ls ≤ H * ls) by nia. nia.
Qed.

Lemma half_range (w i : Z) : 0 ≤ i < w → 0 ≤ i / 2 < (w + 1) / 2.
Proof. intros. div_lia. Qed.

Lemma same_shape_refl (f : AVFrame) : same_shape f f.
Proof. by repeat split. Qed.

Lemma same_shape_trans (f f' f'' : AVFrame) :
  same_shape f f' → same_shape f' f'' → same_shape f f''.
Proof. unfold same_shape. intros ? ?. intuition congruence. Qed.

Lemma painted_refl (f : AVFrame) : painted (fun _ _ => false) f f.
Proof. split; [apply same_shape_refl|]. by split. Qed.

Lemma painted_ext (P Q : Z → Z → bool) (f f' : AVFrame) :
  (∀ i j, P i j = Q i j) → painted P f f' → painted Q f f'.
Proof.
  intros E (Hs & Hl & Hc). split; [done|]. split.
  - intros i j Hi Hj. rewrite <- E. by apply Hl.
  - intros ci cj Hi Hj. unfold chroma_of. rewrite <- !E. by apply Hc.
Qed.

Lemma painted_trans (P Q : Z → Z → bool) (f f' f'' : AVFrame) :
  painted P f f' → painted Q f' f'' →
  painted (fun i j => P i j || Q i j) f f''.
Proof.
  intros (Hs & Hl & Hc) (Hs' & Hl' & Hc').
  pose proof Hs as (Hw & Hh & _).
  split; [by eapply same_shape_trans|]. split.
  - intros i j Hi Hj. rewrite Hl' by lia. rewrite Hl by lia.
    by destruct (P i j), (Q i j).
  - intros ci cj Hi Hj.
    destruct (Hc' ci cj) as [-> ->]; [rewrite ?Hw, ?Hh; lia..|].
    destruct (Hc ci cj) as [-> ->]; [lia..|].
    unfold chroma_of.
    by destruct (P (2 * ci) (2 * cj)), (P (2 * ci + 1) (2 * cj)),
      (P (2 * ci) (2 * cj + 1)), (P (2 * ci + 1) (2 * cj + 1)),
      (Q (2 * ci) (2 * cj)), (Q (2 * ci + 1) (2 * cj)),
      (Q (2 * ci) (2 * cj + 1)), (Q (2 * ci + 1) (2 * cj + 1)).
Qed.

Lemma chroma_of_point (i j ci cj : Z) :
  chroma_of (fun i' j' => (i' =? i) && (j' =? j)) ci cj
  = (ci =? i / 2) && (cj =? j / 2).
Proof.
  unfold chroma_of.
  destruct (Z.eqb_spec ci (i / 2)), (Z.eqb_spec cj (j / 2)),
    (Z.eqb_spec (2 * ci) i), (Z.eqb_spec (2 * ci + 1) i),
    (Z.eqb_spec (2 * cj) j), (Z.eqb_spec (2 * cj + 1) j); simpl; try done; div_lia.
Qed.

Lemma mask_pixel_spec (f : AVFrame) (i j : Z) :
  frame_ok f → 0 ≤ i < width f → 0 ≤ j < height f →
  ∃ f', mask_pixel j i f = Ok f' ∧ frame_ok f' ∧
        painted (fun i' j' => (i' =? i) && (j' =? j)) f f'.
Proof.
  intros Hok Hi Hj.
  pose proof (luma_index f i j Hok Hi Hj) as H0.
  pose proof (half_range _ _ Hi) as Hci. pose proof (half_range _ _ Hj) as Hcj.
  destruct Hok as [Hw Hh Hl0 Hn0 Hl1 Hn1 Hl2 Hn2 Hb0 Hb1 Hb2].
  pose proof (chroma_index _ _ _ _ _ _ Hl1 Hn1 Hci Hcj) as H1.
  pose proof (chroma_index _ _ _ _ _ _ Hl2 Hn2 Hci Hcj) as H2.
  unfold mask_pixel.
  rewrite !Z.quot_div_nonneg by lia.
  rewrite store_ok by done. simpl.
  rewrite store_ok by done. simpl.
  rewrite store_ok by done. simpl.
  eexists. split; [done|]. split; [|split; [|split]].
  - constructor; simpl; rewrite ?length_insert; try done;
      apply insert_byte; try done; unfold byte; lia.
  - unfold same_shape; simpl. rewrite !length_insert. done.
  - intros i' j' Hi' Hj'. unfold luma; simpl.
    rewrite peek_insert by (try done; nia).
    rewrite index_eqb by lia. done.
  - intros ci cj Hci' Hcj'. unfold cb, cr; simpl.
    rewrite !peek_insert by (try done; nia).
    rewrite chroma_of_point.
    rewrite !index_eqb by lia. done.
Qed.

(** A loop whose every round paints some pixels paints their union. *)
Lemma paint_over (w h : Z) (R : Z → Z → Z → bool)
    (body : Z → AVFrame → outcome AVFrame) (vs : list Z) :
  (∀ v f, v ∈ vs → frame_ok f → width f = w → height f = h →
     ∃ f', body v f = Ok f' ∧ frame_ok f' ∧ painted (R v) f f') →
  ∀ f, frame_ok f → width f = w → height f = h →
  ∃ f', run_over body vs f = Ok f' ∧ frame_ok f' ∧
        painted (fun i j => existsb (fun v => R v i j) vs) f f'.
Proof.
  induction vs as [|v vs IH]; intros Hbody f Hok Hw Hh; simpl.
  - exists f. split; [done|]. split; [done|]. apply painted_refl.
  - destruct (Hbody v f) as (f1 & -> & Hok1 & Hp1); [left|done..|].
    simpl. destruct Hp1 as (Hs1 & Hp1).
    pose proof Hs1 as (Hw1 & Hh1 & _).
    destruct (IH (fun v' f' Hin => Hbody v' f' (list_elem_of_further _ _ _ Hin))
                 f1 Hok1 ltac:(congruence) ltac:(congruence))
      as (f2 & -> & Hok2 & Hp2).
    exists f2. split; [done|]. split; [done|].
    by apply (painted_trans (R v) _ f f1 f2).
Qed.

Lemma existsb_eqb_elem (a : Z) (vs : list Z) :
  existsb (fun v => a =? v) vs = true ↔ a ∈ vs.
Proof.
  rewrite existsb_exists. split.
  - intros (v & Hin & E). apply Z.eqb_eq in E. subst. by apply list_elem_of_In.
  - intros Hin. exists a. split; [by apply list_elem_of_In|apply Z.eqb_refl].
Qed.

Lemma existsb_span (sz bound from a : Z) :
  existsb (fun v => a =? v) (span sz bound from)
  = (from <=? a) && (a <? from + sz) && (a <? bound).
Proof.
  apply eq_true_iff_eq. rewrite existsb_eqb_elem, elem_of_span.
  rewrite !andb_true_iff, Z.leb_le, !Z.ltb_lt. lia.
Qed.

Lemma existsb_andb_r {A : Type} (g : A → bool) (b : bool) (vs : list A) :
  existsb (fun v => g v && b) vs = existsb g vs && b.
Proof.
  induction vs as [|v vs IH]; simpl; [done|]. rewrite IH.
  by destruct (g v), b, (existsb g vs).
Qed.

Lemma existsb_andb_l {A : Type} (g : A → bool) (b : bool) (vs : list A) :
  existsb (fun v => b && g v) vs = b && existsb g vs.
Proof.
  induction vs as [|v vs IH]; simpl; [by destruct b|]. rewrite IH.
  by destruct (g v), b, (existsb g vs).
Qed.

Lemma existsb_pointwise {A : Type} (g g' : A → bool) (vs : list A) :
  (∀ v, g v = g' v) → existsb g vs = existsb g' vs.
Proof. intros E. induction vs as [|v vs IH]; simpl; [done|]. by rewrite E, IH. Qed.

Lemma covers_spans (sz w h x y i j : Z) :
  existsb (fun j' => existsb (fun i' => (i =? i') && (j =? j')) (span sz w x))
          (span sz h y)
  = covers sz w h x y i j.
Proof.
  rewrite (existsb_pointwise _ (fun j' => existsb (fun i' => i =? i') (span sz w x)
                                    && (j =? j')))
    by (intros j'; apply existsb_andb_r).
  rewrite existsb_andb_l, !existsb_span. unfold covers.
  by destruct (x <=? i), (i <? x + sz), (i <? w), (y <=? j), (j <? y + sz),
    (j <? h).
Qed.

Lemma mask_block_spec (sz : Z) (f : AVFrame) (x y : Z) :
  frame_ok f → 0 ≤ sz → 0 ≤ x → 0 ≤ y →
  ∃ f', mask_block sz f x y = Ok f' ∧ frame_ok f' ∧
        painted (covers sz (width f) (height f) x y) f f'.
Proof.
  intros Hok Hsz Hx Hy. unfold mask_block. rewrite span_loop by done.
  destruct (paint_over (width f) (height f)
              (fun j' i j => existsb (fun i' => (i =? i') && (j =? j'))
                               (span sz (width f) x))
              (fun j f =>
                 for_fuel (Z.to_nat sz) x
                   (fun i => (i <? x + sz) && (i <? width f)) 1
                   (fun i f => mask_pixel j i f) f)
              (span sz (height f) y)) with f as (f' & Hrun & Hok' & Hp);
    try done.
  - intros j g Hj Hokg Hwg Hhg. rewrite span_loop by done. rewrite Hwg.
    apply elem_of_span in Hj.
    apply (paint_over (width f) (height f)
             (fun i' i j0 => (i =? i') && (j0 =? j))); try done.
    intros i g' Hi Hokg' Hwg' Hhg'. apply elem_of_span in Hi.
    destruct (mask_pixel_spec g' i j) as (g'' & E & Hok'' & Hp''); [done|lia..|].
    exists g''. split; [done|]. split; [done|].
    revert Hp''. apply painted_ext. done.
  - exists f'. split; [done|]. split; [done|].
    revert Hp. apply painted_ext. intros i j. apply covers_spans.
Qed.

(** * The sum of a block *)

Lemma run_over_sum (M B : Z) (g : Z → Z) (body : Z → Z → outcome Z) (vs : list Z) :
  (∀ v, v ∈ vs → 0 ≤ g v ≤ B) →
  (∀ v acc, v ∈ vs → 0 ≤ acc → acc + B ≤ M → body v acc = Ok (acc + g v)) →
  ∀ acc, 0 ≤ acc → acc + B * Z.of_nat (length vs) ≤ M →
  run_over body vs acc = Ok (acc + zsum g vs).
Proof.
  induction vs as [|v vs IH]; intros Hg Hbody acc Hacc Hroom; simpl.
  - f_equal. lia.
  - pose proof (Hg v ltac:(left)) as Hv.
    rewrite length_cons in Hroom.
    rewrite Hbody; [|left|done|nia]. simpl.
    rewrite IH.
    + f_equal. lia.
    + intros v' Hin. apply Hg. by right.
    + intros v' acc' Hin. apply Hbody. by right.
    + lia.
    + nia.
Qed.

Lemma zsum_bounds (B : Z) (g : Z → Z) (vs : list Z) :
  (∀ v, v ∈ vs → 0 ≤ g v ≤ B) →
  0 ≤ zsum g vs ≤ B * Z.of_nat (length vs).
Proof.
  induction vs as [|v vs IH]; intros Hg; simpl; [lia|].
  pose proof (Hg v ltac:(left)).
  destruct IH as [? ?]; [intros v' Hin; apply Hg; by right|].
  rewrite Nat2Z.inj_succ. nia.
Qed.

Lemma zsum_ext (g g' : Z → Z) (vs : list Z) :
  (∀ v, v ∈ vs → g v = g' v) → zsum g vs = zsum g' vs.
Proof.
  induction vs as [|v vs IH]; intros Hg; simpl; [done|].
  rewrite (Hg v) by left. rewrite IH; [done|]. intros v' Hin. apply Hg. by right.
Qed.

Lemma pix_bounds (f : AVFrame) (j i : Z) : frame_ok f → 0 ≤ pix f j i ≤ 765.
Proof.
  intros []. unfold pix, luma, cb, cr.
  pose proof (peek_byte (data0 f) (j * linesize0 f + i) ltac:(done)).
  pose proof (peek_byte (data1 f) (j / 2 * linesize1 f + i / 2) ltac:(done)).
  pose proof (peek_byte (data2 f) (j / 2 * linesize2 f + i / 2) ltac:(done)).
  unfold byte in *. lia.
Qed.

Lemma sum_pixel_ok (f : AVFrame) (j i acc : Z) :
  frame_ok f → 0 ≤ i < width f → 0 ≤ j < height f →
  0 ≤ acc → acc + 765 ≤ 2 ^ 64 - 1 →
  sum_pixel f j i acc = Ok (acc + pix f j i).
Proof.
  intros Hok Hi Hj Hacc Hroom.
  pose proof (luma_index f i j Hok Hi Hj) as H0.
  pose proof (half_range _ _ Hi) as Hci. pose proof (half_range _ _ Hj) as Hcj.
  destruct Hok as [Hw Hh Hl0 Hn0 Hl1 Hn1 Hl2 Hn2 Hb0 Hb1 Hb2].
  pose proof (chroma_index _ _ _ _ _ _ Hl1 Hn1 Hci Hcj) as H1.
  pose proof (chroma_index _ _ _ _ _ _ Hl2 Hn2 Hci Hcj) as H2.
  unfold sum_pixel. rewrite !Z.quot_div_nonneg by lia.
  rewrite !load_ok by done. simpl.
  pose proof (peek_byte (data0 f) (j * linesize0 f + i) Hb0) as B0.
  pose proof (peek_byte (data1 f) (j / 2 * linesize1 f + i / 2) Hb1) as B1.
  pose proof (peek_byte (data2 f) (j / 2 * linesize2 f + i / 2) Hb2) as B2.
  unfold byte in *. unfold u64, pix, luma, cb, cr.
  change (2 ^ 64) with 18446744073709551616 in *.
  rewrite (Z.mod_small (acc + _)) by lia.
  rewrite (Z.mod_small (acc + _ + _)) by lia.
  rewrite (Z.mod_small (acc + _ + _ + _)) by lia.
  f_equal. lia.
Qed.

Lemma bsum_bounds (sz : Z) (f : AVFrame) (x y : Z) :
  frame_ok f → 0 ≤ sz → 0 ≤ bsum sz f x y ≤ SUM_MAX sz.
Proof.
  intros Hok Hsz. unfold bsum, SUM_MAX.
  pose proof (length_span sz (height f) y Hsz).
  pose proof (zsum_bounds (765 * sz)
    (fun j => zsum (fun i => pix f j i) (span sz (width f) x))
    (span sz (height f) y)) as Hb.
  destruct Hb as [? ?]; [|nia].
  intros j _.
  pose proof (length_span sz (width f) x Hsz).
  pose proof (zsum_bounds 765 (fun i => pix f j i) (span sz (width f) x)) as Hr.
  destruct Hr as [? ?]; [|nia].
  intros i _. by apply pix_bounds.
Qed.

Lemma block_sum_ok (sz : Z) (f : AVFrame) (x y : Z) :
  frame_ok f → 0 ≤ x → 0 ≤ y → 0 ≤ sz ≤ 600 →
  block_sum sz f x y = Ok (bsum sz f x y).
Proof.
  intros Hok Hx Hy Hsz. unfold block_sum. rewrite span_loop by lia.
  pose proof (length_span sz (height f) y ltac:(lia)) as Hlh.
  pose proof (length_span sz (width f) x ltac:(lia)) as Hlw.
  rewrite (run_over_sum (2 ^ 64 - 1) (765 * sz)
             (fun j => zsum (fun i => pix f j i) (span sz (width f) x)));
    [done| | |done|nia].
  - intros j _.
    pose proof (zsum_bounds 765 (fun i => pix f j i) (span sz (width f) x)) as Hr.
    destruct Hr as [? ?]; [|nia]. intros i _. by apply pix_bounds.
  - intros j acc Hj Hacc Hroom. apply elem_of_span in Hj.
    rewrite span_loop by lia.
    apply (run_over_sum (2 ^ 64 - 1) 765); [| |done|nia].
    + intros i _. by apply pix_bounds.
    + intros i acc' Hi Hacc' Hroom'. apply elem_of_span in Hi.
      apply sum_pixel_ok; try done; lia.
Qed.

(** * The comparison *)


Lemma abs_delta_exact (sum prev : Z) :
  0 ≤ sum < 2 ^ 31 → 0 ≤ prev < 2 ^ 31 →
  abs_delta sum prev = Ok (Z.abs (sum - prev)).
Proof.
  intros Hs Hp. unfold abs_delta, c_abs, to_int, u64, INT_MIN.
  change (2 ^ 31) with 2147483648 in *.
  change (2 ^ 32) with 4294967296.
  change (2 ^ 64) with 18446744073709551616.
  assert (((sum - prev) mod 18446744073709551616 + 2147483648) mod 4294967296
          - 2147483648 = sum - prev) as ->.
  { div_lia. }
  destruct (Z.eqb_spec (sum - prev) (-2147483648)); [lia|done].
Qed.

Lemma norm_divisor_pos (sz : Z) : 4 ≤ sz → 0 < norm_divisor sz.
Proof.
  intros H. unfold norm_divisor. rewrite Z.quot_div_nonneg by nia.
  apply Z.div_str_pos. nia.
Qed.

Lemma norm_divisor_zero (sz : Z) : 1 ≤ sz ≤ 3 → norm_divisor sz = 0.
Proof.
  intros H. unfold norm_divisor.
  assert (sz = 1 ∨ sz = 2 ∨ sz = 3) as [->|[->| ->]] by lia; reflexivity.
Qed.

Lemma norm_divisor_div (sz : Z) : 0 ≤ sz → norm_divisor sz = sz * sz / 10.
Proof. intros H. unfold norm_divisor. apply Z.quot_div_nonneg; nia. Qed.

Lemma c_div_ok (d sz : Z) :
  0 ≤ d → 4 ≤ sz → c_div d (norm_divisor sz) = Ok (d / (sz * sz / 10)).
Proof.
  intros Hd Hsz. pose proof (norm_divisor_pos sz Hsz) as Hp. unfold c_div.
  destruct (Z.eqb_spec (norm_divisor sz) 0); [lia|].
  rewrite Z.quot_div_nonneg by lia. by rewrite norm_divisor_div by lia.
Qed.

Lemma SUM_MAX_int (sz : Z) : 0 ≤ sz ≤ 600 → SUM_MAX sz < 2 ^ 31.
Proof. intros H. unfold SUM_MAX. change (2 ^ 31) with 2147483648. nia. Qed.

(** * The ring *)

Lemma ring_read_live (slots : list slot) (b : nat) (cells : list Z) (k : nat) (v : Z) :
  slots !! b = Some (SlotLive cells) → cells !! k = Some v →
  ring_read (RingLive slots) (Z.of_nat b) (Z.of_nat k) = Ok v.
Proof.
  intros Hb Hk. unfold ring_read.
  destruct (Z.ltb_spec (Z.of_nat b) 0); [lia|].
  rewrite Nat2Z.id, Hb. unfold load.
  destruct (Z.ltb_spec (Z.of_nat k) 0); [lia|].
  by rewrite Nat2Z.id, Hk.
Qed.

Lemma ring_write_live (slots : list slot) (b : nat) (cells : list Z) (k : nat) (v : Z) :
  slots !! b = Some (SlotLive cells) → (k < length cells)%nat →
  ring_write (RingLive slots) (Z.of_nat b) (Z.of_nat k) v
  = Ok (RingLive (<[b := SlotLive (<[k := v]> cells)]> slots)).
Proof.
  intros Hb Hk. unfold ring_write.
  destruct (Z.ltb_spec (Z.of_nat b) 0); [lia|].
  rewrite Nat2Z.id, Hb. rewrite store_ok by lia. simpl. by rewrite Nat2Z.id.
Qed.

(** * Sums of painted pictures *)

Lemma bsum_ext (sz : Z) (f f' : AVFrame) (x y : Z) :
  width f' = width f → height f' = height f →
  (∀ i j, covers sz (width f) (height f) x y i j = true → pix f' j i = pix f j i) →
  bsum sz f' x y = bsum sz f x y.
Proof.
  intros Hw Hh E. unfold bsum. rewrite Hw, Hh.
  apply zsum_ext. intros j Hj. apply zsum_ext. intros i Hi.
  apply E. apply elem_of_span in Hi, Hj. unfold covers.
  repeat (apply andb_true_iff; split); try apply Z.leb_le; try apply Z.ltb_lt; lia.
Qed.

Lemma painted_pix (P : Z → Z → bool) (f0 f : AVFrame) (i j : Z) :
  painted P f0 f → 0 ≤ i < width f0 → 0 ≤ j < height f0 →
  P i j = false → chroma_of P (i / 2) (j / 2) = false →
  pix f j i = pix f0 j i.
Proof.
  intros (Hs & Hl & Hc) Hi Hj HP HC. unfold pix.
  rewrite Hl by done. rewrite HP.
  destruct (Hc (i / 2) (j / 2)) as [-> ->]; [by apply half_range..|].
  by rewrite HC.
Qed.

(** * One block *)

Lemma masked_at_snoc (sz w h : Z) (log : list comparison) (r : comparison) (i j : Z) :
  masked_at sz w h (log ++ [r]) i j
  = masked_at sz w h log i j || c_masked r && covers sz w h (c_x r) (c_y r) i j.
Proof. unfold masked_at. rewrite existsb_app. simpl. by rewrite orb_false_r. Qed.

Section block_loop.
Variables (sz : Z) (thr : Q) (f0 : AVFrame) (slots0 : list slot) (b : nat)
          (cells0 : list Z).
Hypothesis Hsz : 4 ≤ sz ≤ 600.
Hypothesis Hf0 : frame_ok f0.
Hypothesis Hslot : slots0 !! b = Some (SlotLive cells0).
Hypothesis Hcells : Forall (fun c => 0 ≤ c ≤ SUM_MAX sz) cells0.

Lemma block_inv_start :
  block_inv sz thr f0 slots0 b cells0 [] (mkLoop (RingLive slots0) f0 0 []).
Proof.
  constructor; simpl; try done.
  symmetry. f_equal. by apply list_insert_id.
Qed.

Lemma entry_ok_snoc (log : list comparison) (r r' : comparison) (k : nat) :
  (k < length log)%nat →
  entry_ok sz thr f0 cells0 log k r' →
  entry_ok sz thr f0 cells0 (log ++ [r]) k r'.
Proof.
  intros Hk [H1 H2 H3 H4 H5 H6 H7]. constructor; try done.
  by rewrite take_app_le by lia.
Qed.

Lemma process_block_spec (done : list (Z * Z)) (st : loop_state) (y x : Z) :
  block_inv sz thr f0 slots0 b cells0 done st →
  0 ≤ x < width f0 → 0 ≤ y < height f0 →
  (length done < length cells0)%nat →
  ∃ st', process_block sz thr (Z.of_nat b) y x st = Ok st' ∧
         block_inv sz thr f0 slots0 b cells0 (done ++ [(y, x)]) st'.
Proof.
  intros [Hrc Horig Hring Hok Hp Hent] Hx Hy Hroom.
  assert (length (l_log st) = length done) as Hlen.
  { by rewrite <- Horig, length_fmap. }
  pose proof Hp as ((Hw & Hh & _) & _).
  destruct (lookup_lt_is_Some_2 cells0 (length done) Hroom) as [prev Hprev].
  pose proof (Forall_lookup_1 _ _ _ _ Hcells Hprev) as Hprev_range.
  simpl in Hprev_range.
  pose proof (bsum_bounds sz (l_frame st) x y Hok ltac:(lia)) as Hsum_range.
  pose proof (SUM_MAX_int sz ltac:(lia)) as Hmax.
  set (cells := (c_sum <$> l_log st) ++ drop (length done) cells0) in *.
  assert (cells !! length done = Some prev) as Hcell.
  { unfold cells. rewrite lookup_app_r by (rewrite length_fmap; lia).
    rewrite length_fmap, Hlen, Nat.sub_diag, lookup_drop.
    by rewrite Nat.add_0_r. }
  assert (<[b := SlotLive cells]> slots0 !! b = Some (SlotLive cells)) as Hb.
  { apply list_lookup_insert_eq. by eapply lookup_lt_Some. }
  unfold process_block.
  rewrite block_sum_ok by (try done; lia). next.
  rewrite Hring, Hrc.
  rewrite (ring_read_live _ b cells (length done) prev) by done. next.
  rewrite abs_delta_exact by lia. next.
  rewrite c_div_ok by lia. next.
  set (sum := bsum sz (l_frame st) x y) in *.
  set (d := Z.abs (sum - prev)).
  set (n := d / (sz * sz / 10)).
  set (m := lt_double n thr).
  assert (∃ f', (if m then mask_block sz (l_frame st) x y else Ok (l_frame st))
                = Ok f' ∧ frame_ok f' ∧
                painted (fun i j => m && covers sz (width f0) (height f0) x y i j)
                        (l_frame st) f') as (f' & -> & Hok' & Hp').
  { destruct m.
    - destruct (mask_block_spec sz (l_frame st) x y) as (f' & E & Hok' & Hp');
        [done|lia..|].
      exists f'. split; [done|]. split; [done|].
      rewrite Hw, Hh in Hp'. done.
    - exists (l_frame st). split; [done|]. split; [done|]. apply painted_refl. }
  next.
  rewrite (ring_write_live _ b cells (length done)); [|done|].
  2:{ by eapply lookup_lt_Some. }
  next. eexists. split; [done|].
  set (r := mkCmp x y (Z.of_nat (length done)) prev sum d n m).
  constructor; simpl.
  - rewrite length_app. simpl. lia.
  - rewrite fmap_app. simpl. by rewrite Horig.
  - rewrite list_insert_insert_eq. do 3 f_equal.
    unfold cells. rewrite insert_app_r_alt by (rewrite length_fmap; lia).
    rewrite length_fmap, Hlen, Nat.sub_diag.
    rewrite (drop_S _ _ _ Hprev). simpl.
    rewrite fmap_app, <- app_assoc, length_app. simpl.
    by rewrite Nat.add_1_r.
  - done.
  - pose proof (painted_trans _ _ _ _ _ Hp Hp') as Hp2.
    revert Hp2. apply painted_ext. intros i j.
    by rewrite masked_at_snoc.
  - intros k r' Hk. apply lookup_app_Some in Hk as [Hk|[Hge Hk]].
    + apply entry_ok_snoc; [by eapply lookup_lt_Some|by apply Hent].
    + assert (k = length (l_log st)) as ->.
      { apply lookup_lt_Some in Hk. simpl in Hk. lia. }
      rewrite Nat.sub_diag in Hk. simpl in Hk. injection Hk as <-.
      constructor; simpl; try done.
      * by rewrite Hlen.
      * by rewrite Hlen.
      * rewrite take_app_length. by exists (l_frame st).
Qed.
End block_loop.

(** * All blocks *)

Lemma run_row_blocks {S : Type} (body : Z → Z → S → outcome S) (y : Z)
    (xs : list Z) (st : S) :
  run_over (fun x st => body y x st) xs st
  = run_blocks body ((fun x => (y, x)) <$> xs) st.
Proof.
  revert st. induction xs as [|x xs IH]; intros st; simpl; [done|].
  destruct (body y x st); simpl; [apply IH|done].
Qed.

Lemma run_blocks_app {S : Type} (body : Z → Z → S → outcome S)
    (bs bs' : list (Z * Z)) (st : S) :
  run_blocks body (bs ++ bs') st
  = (st' ← run_blocks body bs st; run_blocks body bs' st').
Proof.
  revert st. induction bs as [|[y x] bs IH]; intros st; simpl; [done|].
  destruct (body y x st); simpl; [apply IH|done].
Qed.

Lemma run_nested_blocks {S : Type} (body : Z → Z → S → outcome S)
    (ys xs : list Z) (st : S) :
  run_over (fun y st => run_over (fun x st => body y x st) xs st) ys st
  = run_blocks body (y ← ys; (fun x => (y, x)) <$> xs) st.
Proof.
  revert st. induction ys as [|y ys IH]; intros st; simpl; [done|].
  rewrite run_blocks_app, run_row_blocks.
  destruct (run_blocks body ((fun x => (y, x)) <$> xs) st); simpl; [apply IH|done].
Qed.

Lemma elem_of_blocks (sz w h y x : Z) :
  (y, x) ∈ blocks sz w h ↔ y ∈ origins sz h ∧ x ∈ origins sz w.
Proof.
  unfold blocks. rewrite list_elem_of_bind. split.
  - intros (y' & Hx & Hy). apply list_elem_of_fmap in Hx as (x' & E & Hx).
    injection E as -> ->. done.
  - intros [Hy Hx]. exists y. split; [|done].
    apply list_elem_of_fmap. by exists x.
Qed.

Lemma NoDup_steps (n : nat) (v step : Z) : step ≠ 0 → NoDup (steps n v step).
Proof.
  intros Hstep. apply NoDup_alt. intros i j a Hi Hj.
  pose proof (lookup_lt_Some _ _ _ Hi) as Hli.
  pose proof (lookup_lt_Some _ _ _ Hj) as Hlj.
  rewrite length_steps in Hli, Hlj.
  rewrite lookup_steps in Hi, Hj by done.
  injection Hi as Hi. injection Hj as Hj.
  assert (step * Z.of_nat i = step * Z.of_nat j) as E by lia.
  apply Z.mul_reg_l in E; lia.
Qed.

Lemma NoDup_blocks (sz w h : Z) : 0 < sz → NoDup (blocks sz w h).
Proof.
  intros Hsz. unfold blocks. apply NoDup_bind.
  - intros y1 y2 p _ _ H1 H2.
    apply list_elem_of_fmap in H1 as (x1 & -> & _).
    apply list_elem_of_fmap in H2 as (x2 & E & _). by injection E.
  - intros y _. apply NoDup_fmap_2; [|apply NoDup_steps; lia].
    intros x1 x2 E. by injection E.
  - apply NoDup_steps. lia.
Qed.

Section all_blocks.
Variables (sz : Z) (thr : Q) (f0 : AVFrame) (slots0 : list slot) (b : nat)
          (cells0 : list Z).
Hypothesis Hsz : 4 ≤ sz ≤ 600.
Hypothesis Hf0 : frame_ok f0.
Hypothesis Hslot : slots0 !! b = Some (SlotLive cells0).
Hypothesis Hcells : Forall (fun c => 0 ≤ c ≤ SUM_MAX sz) cells0.

Lemma run_blocks_spec (rest : list (Z * Z)) :
  ∀ (done : list (Z * Z)) (st : loop_state),
    block_inv sz thr f0 slots0 b cells0 done st →
    (∀ y x, (y, x) ∈ rest → 0 ≤ x < width f0 ∧ 0 ≤ y < height f0) →
    (length done + length rest ≤ length cells0)%nat →
    ∃ st', run_blocks (process_block sz thr (Z.of_nat b)) rest st = Ok st' ∧
           block_inv sz thr f0 slots0 b cells0 (done ++ rest) st'.
Proof.
  induction rest as [|[y x] rest IH]; intros done st Hinv Hin Hroom; simpl.
  - exists st. split; [done|]. by rewrite app_nil_r.
  - simpl in Hroom.
    destruct (Hin y x ltac:(left)) as [Hx Hy].
    destruct (process_block_spec sz thr f0 slots0 b cells0 Hsz Hslot Hcells
                done st y x Hinv Hx Hy ltac:(lia)) as (st1 & -> & Hinv1).
    next.
    destruct (IH (done ++ [(y, x)]) st1 Hinv1) as (st2 & -> & Hinv2).
    + intros y' x' Hin'. apply Hin. by right.
    + rewrite length_app. simpl. lia.
    + exists st2. split; [done|]. by rewrite <- app_assoc in Hinv2.
Qed.
End all_blocks.

(** * One call of filter_frame *)

Lemma run_over_ext {S : Type} (body body' : Z → S → outcome S) (vs : list Z) (st : S) :
  (∀ v st, body v st = body' v st) → run_over body vs st = run_over body' vs st.
Proof.
  intros E. revert st. induction vs as [|v vs IH]; intros st; simpl; [done|].
  rewrite E. destruct (body' v st); simpl; [apply IH|done].
Qed.

Lemma block_loops_blocks {S : Type} (sz w h : Z) (body : Z → Z → S → outcome S)
    (st : S) :
  0 < sz → 0 ≤ w → 0 ≤ h →
  for_fuel (Z.to_nat h) 0 (fun y => y <? h) sz
    (fun y st =>
       for_fuel (Z.to_nat w) 0 (fun x => x <? w) sz (fun x st => body y x st) st)
    st
  = run_blocks body (blocks sz w h) st.
Proof.
  intros Hsz Hw Hh. rewrite origins_loop by done.
  rewrite (run_over_ext _ (fun y st => run_over (fun x st => body y x st)
                                          (origins sz w) st))
    by (intros; by apply origins_loop).
  apply run_nested_blocks.
Qed.

Lemma buffer_index_lt (s : static_maskContext) (rows : list (list Z)) (w h : Z) :
  ctx_ok w h rows s → (buffer_index s < length rows)%nat.
Proof.
  intros []. unfold buffer_index.
  pose proof (Z.mod_pos_bound (frame_count s) (frame_back s) ltac:(lia)). lia.
Qed.

Lemma filter_frame_spec (s : static_maskContext) (rows : list (list Z))
    (f0 : AVFrame) :
  ctx_ok (width f0) (height f0) rows s → frame_ok f0 →
  frame_count s < INT_MAX →
  ∃ s' f' log, filter_frame s f0 = Ok (s', f', log) ∧
               call_ok s rows f0 s' f' log.
Proof.
  intros Hctx Hf0 Hfc.
  pose proof (buffer_index_lt _ _ _ _ Hctx) as Hb.
  destruct Hctx as [Hsz Hback Hcount Hring Hrows Hcells].
  destruct (lookup_lt_is_Some_2 rows (buffer_index s) Hb) as [cells0 Hrow].
  pose proof (Forall_lookup_1 _ _ _ _ Hcells Hrow) as [Hlen0 Hrange0].
  pose proof (ok_w f0 Hf0) as Hw. pose proof (ok_h f0 Hf0) as Hh.
  unfold filter_frame, c_mod.
  destruct (Z.eqb_spec (frame_back s) 0); [lia|]. next.
  rewrite Z.rem_mod_nonneg by lia.
  rewrite block_loops_blocks by lia.
  replace (frame_count s mod frame_back s) with (Z.of_nat (buffer_index s))
    by (unfold buffer_index;
        pose proof (Z.mod_pos_bound (frame_count s) (frame_back s)); lia).
  rewrite Hring.
  destruct (run_blocks_spec (size s) (threshold s) f0 (SlotLive <$> rows)
              (buffer_index s) cells0 Hsz
              ltac:(by rewrite list_lookup_fmap, Hrow) Hrange0
              (blocks (size s) (width f0) (height f0)) []
              (mkLoop (RingLive (SlotLive <$> rows)) f0 0 []))
    as (st & -> & [Hrc Horig Hring' Hok Hp Hent]).
  - apply block_inv_start; [done|]. by rewrite list_lookup_fmap, Hrow.
  - intros y x Hin. apply elem_of_blocks in Hin as [Hy Hx].
    apply elem_of_origins in Hx, Hy; lia.
  - simpl. unfold block_count in Hlen0. lia.
  - next. destruct (Z.eqb_spec (frame_count s) INT_MAX); [lia|].
    simpl in Horig, Hring'.
    assert (length (l_log st) = block_count (size s) (width f0) (height f0))
      as Hlen.
    { unfold block_count. by rewrite <- Horig, length_fmap. }
    assert (l_ring st = RingLive (SlotLive <$>
              <[buffer_index s := c_sum <$> l_log st]> rows)) as Hring2.
    { rewrite Hring'. f_equal. rewrite list_fmap_insert. f_equal. f_equal.
      rewrite drop_ge by (unfold block_count in Hlen0; lia).
      by rewrite app_nil_r. }
    do 3 eexists. split; [done|].
    constructor; try done.
    + unfold ctx_after. by rewrite Hring2.
    + constructor; simpl; try done; try lia.
      * by rewrite length_insert.
      * apply Forall_insert; [done|]. split; [by rewrite length_fmap|].
        apply Forall_fmap. apply Forall_lookup. intros k r Hk. simpl.
        by destruct (Hent k r Hk).
    + by exists cells0.
Qed.

(** * config_input *)

Lemma config_rows (alloc : nat → bool) (L : slot) (n : nat) :
  (∀ k, alloc k = true) →
  ∀ i : nat,
    run_over
      (fun i (st : list slot * bool) =>
         let '(rows, failed) := st in
         if failed then Ok st
         else if alloc (Datatypes.S (Z.to_nat i))
              then Ok (<[Z.to_nat i := L]> rows, false)
              else Ok (rows, true))
      (steps n (Z.of_nat i) 1)
      (replicate i L ++ replicate n SlotUninit, false)
    = Ok (replicate (i + n) L, false).
Proof.
  intros Halloc. induction n as [|n IH]; intros i; simpl.
  - by rewrite app_nil_r, Nat.add_0_r.
  - rewrite Halloc. next. rewrite Nat2Z.id.
    rewrite insert_app_r_alt by (rewrite length_replicate; lia).
    rewrite length_replicate, Nat.sub_diag. simpl.
    replace (Z.of_nat i + 1) with (Z.of_nat (Datatypes.S i)) by lia.
    rewrite cons_middle, app_assoc, <- replicate_S_end.
    rewrite IH. by replace (i + Datatypes.S n)%nat with (Datatypes.S i + n)%nat by lia.
Qed.

Lemma length_product {A B C : Type} (g : A → B → C) (ys : list A) (xs : list B) :
  length (y ← ys; g y <$> xs) = (length ys * length xs)%nat.
Proof.
  induction ys as [|y ys IH]; [done|].
  rewrite bind_cons, length_app, length_fmap, IH. done.
Qed.

Lemma block_count_grid (sz w h : Z) :
  0 < sz → 0 ≤ w → 0 ≤ h →
  block_count sz w h = Z.to_nat ((w + sz - 1) / sz * ((h + sz - 1) / sz)).
Proof.
  intros Hsz Hw Hh. unfold block_count, blocks.
  rewrite (length_product (fun y x => (y, x))).
  unfold origins. rewrite !length_steps.
  rewrite <- Z2Nat.inj_mul by (apply Z.div_pos; lia). f_equal. lia.
Qed.

(** [(a + sz - 1) / sz] is [a / sz] rounded up. *)
Lemma round_up_div (a sz : Z) :
  0 < sz → ((a + sz - 1) / sz - 1) * sz < a ≤ (a + sz - 1) / sz * sz.
Proof.
  intros Hsz.
  pose proof (Z.mul_div_le (a + sz - 1) sz Hsz).
  pose proof (Z.mul_succ_div_gt (a + sz - 1) sz Hsz). lia.
Qed.

Lemma config_input_ok (alloc : nat → bool) (w h : Z) (s : static_maskContext) :
  (∀ k, alloc k = true) → 0 < w → 0 < h → 1 ≤ size s → 0 ≤ frame_back s →
  config_input alloc w h s
  = Ok (0, mkCtx (size s) (threshold s) (frame_back s)
             (RingLive (replicate (Z.to_nat (frame_back s))
                          (SlotLive (replicate
                             (Z.to_nat ((w + size s - 1) / size s
                                        * ((h + size s - 1) / size s))) 0))))
             ((w + size s - 1) / size s) ((h + size s - 1) / size s) 0).
Proof.
  intros Halloc Hw Hh Hsz Hback. unfold config_input, c_div.
  destruct (Z.eqb_spec (size s) 0); [lia|]. next.
  rewrite !Z.quot_div_nonneg by lia.
  rewrite Halloc. cbn [negb].
  rewrite (for_fuel_steps _ _ _ (Z.to_nat (frame_back s))); [|lia| |].
  - pose proof (config_rows alloc
      (SlotLive (replicate (Z.to_nat ((w + size s - 1) / size s
                                      * ((h + size s - 1) / size s))) 0))
      (Z.to_nat (frame_back s)) Halloc O) as E.
    simpl in E. change (Z.of_nat 0) with 0 in E. rewrite E. by next.
  - intros k Hk. apply Z.ltb_lt. lia.
  - apply Z.ltb_ge. lia.
Qed.

Lemma hist_inv_start (K N : nat) : hist_inv K N [] (replicate K (replicate N 0)).
Proof.
  split.
  - intros m log Hm. done.
  - intros b Hb. apply lookup_replicate_2. lia.
Qed.

Lemma config_input_ctx_ok (w h : Z) (s : static_maskContext) :
  0 < w → 0 < h → 4 ≤ size s ≤ 600 → 1 ≤ frame_back s →
  ∃ s1, config_input grant_all w h s = Ok (0, s1) ∧
        size s1 = size s ∧ threshold s1 = threshold s ∧
        frame_back s1 = frame_back s ∧ frame_count s1 = 0 ∧
        ctx_ok w h (replicate (Z.to_nat (frame_back s))
                      (replicate (block_count (size s) w h) 0)) s1.
Proof.
  intros Hw Hh Hsz Hback.
  rewrite config_input_ok by (try done; lia).
  eexists. split; [done|]. simpl. repeat (split; [done|]).
  constructor; simpl; try done; try (unfold INT_MAX; lia).
  - rewrite fmap_replicate. rewrite block_count_grid by lia. done.
  - by rewrite length_replicate.
  - apply Forall_replicate. split; [by rewrite length_replicate|].
    apply Forall_replicate. unfold SUM_MAX. nia.
Qed.

(** * Sessions *)

Lemma mod_apart (K m n : nat) :
  (m < n)%nat → (n < m + K)%nat → (m mod K)%nat ≠ (n mod K)%nat.
Proof.
  intros Hmn Hn E.
  assert (K ≠ 0)%nat as HK by lia.
  pose proof (Nat.div_mod_eq m K). pose proof (Nat.div_mod_eq n K).
  assert (m / K < n / K ∨ n / K ≤ m / K)%nat as [Hlt|Hge] by lia; nia.
Qed.

Lemma hist_inv_step (K N : nat) (before : list (list comparison))
    (rows : list (list Z)) (log : list comparison) :
  (0 < K)%nat → length rows = K →
  hist_inv K N before rows →
  hist_inv K N (before ++ [log])
    (<[(length before mod K)%nat := c_sum <$> log]> rows).
Proof.
  intros HK Hrows [Hlast Hzero].
  pose proof (Nat.mod_upper_bound (length before) K ltac:(lia)) as Hb.
  split.
  - intros m log' Hm Hrecent. rewrite length_app in Hrecent. simpl in Hrecent.
    apply lookup_app_Some in Hm as [Hm|[Hge Hm]].
    + pose proof (lookup_lt_Some _ _ _ Hm) as Hlt.
      rewrite list_lookup_insert_ne by (apply not_eq_sym, mod_apart; lia).
      apply Hlast; [done|lia].
    + assert (m = length before) as ->.
      { apply lookup_lt_Some in Hm. simpl in Hm. lia. }
      rewrite Nat.sub_diag in Hm. injection Hm as <-.
      apply list_lookup_insert_eq. lia.
  - intros b Hbk. rewrite length_app in Hbk. simpl in Hbk.
    rewrite list_lookup_insert_ne.
    + apply Hzero. lia.
    + rewrite Nat.mod_small by lia. lia.
Qed.

Lemma buffer_index_nat (s : static_maskContext) (K n : nat) :
  frame_back s = Z.of_nat K → frame_count s = Z.of_nat n →
  buffer_index s = (n mod K)%nat.
Proof.
  intros HK Hn. unfold buffer_index. rewrite HK, Hn.
  by rewrite <- Nat2Z.inj_mod, Nat2Z.id.
Qed.

Lemma run_spec (w h sz : Z) (thr : Q) (K : nat) (fs : list AVFrame) :
  ∀ (s : static_maskContext) (rows : list (list Z))
    (before : list (list comparison)),
    ctx_ok w h rows s → size s = sz → threshold s = thr →
    frame_back s = Z.of_nat K →
    frame_count s = Z.of_nat (length before) →
    hist_inv K (block_count sz w h) before rows →
    frames_ok w h fs →
    Z.of_nat (length before + length fs) ≤ INT_MAX →
    ∃ s' outs rows',
      run s fs = Ok (s', outs) ∧ length outs = length fs ∧
      ctx_ok w h rows' s' ∧ size s' = sz ∧ threshold s' = thr ∧
      frame_back s' = Z.of_nat K ∧
      frame_count s' = Z.of_nat (length before + length fs) ∧
      hist_inv K (block_count sz w h) (before ++ (snd <$> outs)) rows' ∧
      ∀ n f out, fs !! n = Some f → outs !! n = Some out →
                 step_ok w h sz thr K (before ++ take n (snd <$> outs)) f out.
Proof.
  induction fs as [|f fs IH];
    intros s rows before Hctx Hsz Hthr HK Hfc Hhist Hfs Hmax.
  - exists s, [], rows. simpl. rewrite app_nil_r, Nat.add_0_r.
    repeat (split; [done|]). intros n f out Hf. done.
  - apply Forall_cons in Hfs as [(Hf & Hfw & Hfh) Hfs].
    simpl in Hmax.
    destruct (filter_frame_spec s rows f) as (s1 & f' & log & Hcall & Hok).
    { by rewrite Hfw, Hfh. } { done. } { lia. }
    pose proof Hok as [Hs1 Hctx1 _ _ _ _].
    rewrite Hfw, Hfh in Hctx1.
    rewrite (buffer_index_nat s K (length before)) in Hctx1 by done.
    assert (0 < K)%nat as HKpos by (destruct Hctx; lia).
    assert (length rows = K) as Hrows by (destruct Hctx; lia).
    destruct (IH s1 _ (before ++ [log]) Hctx1)
      as (s' & outs & rows' & Hrun & Hlen & Hctx' & Hsz' & Hthr' & HK' & Hfc'
          & Hhist' & Hsteps).
    + by rewrite Hs1.
    + by rewrite Hs1.
    + by rewrite Hs1.
    + rewrite Hs1, length_app. simpl. lia.
    + by apply hist_inv_step.
    + done.
    + rewrite length_app. simpl. lia.
    + exists s', ((f', log) :: outs), rows'. simpl. rewrite Hcall. next.
      rewrite Hrun. next. split; [done|]. split; [by rewrite Hlen|].
      split; [done|]. split; [done|]. split; [done|]. split; [done|].
      split; [rewrite Hfc', length_app; simpl; f_equal; lia|].
      split; [by rewrite <- app_assoc in Hhist'|].
      intros n g out Hg Hout. destruct n as [|n]; simpl in Hg, Hout.
      * injection Hg as <-. injection Hout as <-. simpl. rewrite app_nil_r.
        exists s, rows, s1. subst w h. by repeat (split; [done|]).
      * specialize (Hsteps n g out Hg Hout).
        by rewrite <- app_assoc in Hsteps.
Qed.

Lemma session_spec (w h : Z) (s : static_maskContext) (fs : list AVFrame) :
  0 < w → 0 < h → 4 ≤ size s ≤ 600 → 1 ≤ frame_back s →
  frames_ok w h fs → Z.of_nat (length fs) ≤ INT_MAX →
  ∃ s1 s' outs rows',
    config_input grant_all w h s = Ok (0, s1) ∧
    run s1 fs = Ok (s', outs) ∧ length outs = length fs ∧
    ctx_ok w h rows' s' ∧ size s' = size s ∧ threshold s' = threshold s ∧
    frame_back s' = frame_back s ∧
    frame_count s' = Z.of_nat (length fs) ∧
    hist_inv (Z.to_nat (frame_back s)) (block_count (size s) w h)
             (snd <$> outs) rows' ∧
    ∀ n f out, fs !! n = Some f → outs !! n = Some out →
               step_ok w h (size s) (threshold s) (Z.to_nat (frame_back s))
                       (take n (snd <$> outs)) f out.
Proof.
  intros Hw Hh Hsz Hback Hfs Hmax.
  destruct (config_input_ctx_ok w h s Hw Hh Hsz Hback)
    as (s1 & Hcfg & Hsz1 & Hthr1 & HK1 & Hfc1 & Hctx1).
  destruct (run_spec w h (size s) (threshold s) (Z.to_nat (frame_back s)) fs
              s1 _ [] Hctx1 Hsz1 Hthr1 ltac:(lia) Hfc1
              (hist_inv_start _ _) Hfs Hmax)
    as (s' & outs & rows' & Hrun & Hlen & Hctx' & Hsz' & Hthr' & HK' & Hfc'
        & Hhist' & Hsteps).
  exists s1, s', outs, rows'. simpl in *.
  repeat (split; [done || lia|]). done.
Qed.

(** What a comparison of a session read, in terms of the context the call
    started in. *)
Lemma step_ok_entry (w h sz : Z) (thr : Q) (K : nat)
    (before : list (list comparison)) (f : AVFrame)
    (out : AVFrame * list comparison) (c : nat) (r : comparison) :
  step_ok w h sz thr K before f out → out.2 !! c = Some r →
  ∃ s rows cells0,
    ctx_ok w h rows s ∧ size s = sz ∧ threshold s = thr ∧
    frame_back s = Z.of_nat K ∧ frame_count s = Z.of_nat (length before) ∧
    hist_inv K (block_count sz w h) before rows ∧
    rows !! (length before mod K)%nat = Some cells0 ∧
    entry_ok sz thr f cells0 out.2 c r.
Proof.
  intros (s & rows & s' & Hctx & Hsz & Hthr & HK & Hfc & Hhist & Hcall & Hok) Hr.
  destruct Hok as [_ _ _ _ _ (cells0 & Hrow & Hent)].
  exists s, rows, cells0.
  rewrite (buffer_index_nat s K (length before)) in Hrow by done.
  subst sz thr. repeat (split; [done|]). by apply Hent.
Qed.

(** The ring gives every comparison the sum of the same cell, frame_back
    calls earlier. *)
Lemma steps_lookback (w h sz : Z) (thr : Q) (K : nat) (fs : list AVFrame)
    (outs : list (AVFrame * list comparison)) :
  (0 < K)%nat → length outs = length fs →
  (∀ n f out, fs !! n = Some f → outs !! n = Some out →
              step_ok w h sz thr K (take n (snd <$> outs)) f out) →
  ∀ (n c : nat) out r,
    outs !! n = Some out → out.2 !! c = Some r →
    c_cell r = Z.of_nat c ∧
    ((K ≤ n)%nat →
       ∃ out0 r0, outs !! (n - K)%nat = Some out0 ∧
                  out0.2 !! c = Some r0 ∧ c_cell r0 = Z.of_nat c ∧
                  c_prev r = c_sum r0) ∧
    ((n < K)%nat → c_prev r = 0).
Proof.
  intros HK Hlen Hsteps n c out r Hout Hr.
  assert (is_Some (fs !! n)) as [f Hf].
  { apply lookup_lt_is_Some. rewrite <- Hlen. by eapply lookup_lt_Some. }
  pose proof (lookup_lt_Some _ _ _ Hout) as Hn.
  destruct (step_ok_entry _ _ _ _ _ _ _ _ _ _ (Hsteps n f out Hf Hout) Hr)
    as (sn & rows & cells0 & Hctx & _ & _ & HKn & Hfc & [Hlast Hzero] & Hrow
        & Hent).
  rewrite length_take, length_fmap, Nat.min_l in Hfc, Hrow by lia.
  rewrite length_take, length_fmap, Nat.min_l in Hlast, Hzero by lia.
  destruct Hent as [Hcell Hprev _ _ _ _ _].
  split; [done|]. split.
  - intros Hge.
    assert (is_Some (outs !! (n - K)%nat)) as [out0 Hout0].
    { apply lookup_lt_is_Some. lia. }
    specialize (Hlast (n - K)%nat out0.2).
    rewrite lookup_take_lt, list_lookup_fmap, Hout0 in Hlast by lia.
    specialize (Hlast eq_refl ltac:(lia)).
    assert (((n - K) mod K)%nat = (n mod K)%nat) as E.
    { replace n with ((n - K) + 1 * K)%nat at 2 by lia.
      by rewrite Nat.Div0.mod_add. }
    rewrite E, Hrow in Hlast. injection Hlast as ->.
    rewrite list_lookup_fmap in Hprev.
    destruct (out0.2 !! c) as [r0|] eqn:Hr0; [|done].
    injection Hprev as Hprev.
    pose proof (lookup_lt_Some _ _ _ Hout0) as Hn0.
    assert (is_Some (fs !! (n - K)%nat)) as [f0 Hf0].
    { apply lookup_lt_is_Some. lia. }
    destruct (step_ok_entry _ _ _ _ _ _ _ _ _ _
                (Hsteps (n - K)%nat f0 out0 Hf0 Hout0) Hr0)
      as (_ & _ & cells1 & _ & _ & _ & _ & _ & _ & _ & [Hcell0 _ _ _ _ _ _]).
    exists out0, r0. by repeat (split; [done|]).
  - intros Hlt.
    rewrite Nat.mod_small in Hrow by lia.
    rewrite Hzero in Hrow by lia. injection Hrow as <-.
    apply lookup_replicate in Hprev as [Hprev _]. done.
Qed.

(** Every call of a session compares every block of the grid once, in the
    order of the loops. *)
Lemma steps_cover (w h sz : Z) (thr : Q) (K : nat) (fs : list AVFrame)
    (outs : list (AVFrame * list comparison)) :
  length outs = length fs → frames_ok w h fs →
  (∀ n f out, fs !! n = Some f → outs !! n = Some out →
              step_ok w h sz thr K (take n (snd <$> outs)) f out) →
  ∀ (n : nat) out,
    outs !! n = Some out →
    (fun r => (c_y r, c_x r)) <$> out.2 = blocks sz w h.
Proof.
  intros Hlen Hfs Hsteps n out Hout.
  assert (is_Some (fs !! n)) as [f Hf].
  { apply lookup_lt_is_Some. rewrite <- Hlen. by eapply lookup_lt_Some. }
  pose proof (Forall_lookup_1 _ _ _ _ Hfs Hf) as (_ & Hfw & Hfh).
  simpl in Hfw, Hfh.
  destruct (Hsteps n f out Hf Hout)
    as (sn & rows & sn' & _ & Hszn & _ & _ & _ & _ & _ & Hok).
  destruct Hok as [_ _ _ _ Hblocks _]. by rewrite Hszn, Hfw, Hfh in Hblocks.
Qed.

(** A session is the calls of its first pictures, then the rest. *)
Lemma run_app (s : static_maskContext) (fs gs : list AVFrame) :
  run s (fs ++ gs)
  = ('(s1, outs1) ← run s fs;
     '(s2, outs2) ← run s1 gs;
     Ok (s2, outs1 ++ outs2)).
Proof.
  revert s. induction fs as [|f fs IH]; intros s; simpl.
  - by destruct (run s gs) as [[s2 outs2]|e].
  - destruct (filter_frame s f) as [[[s1 f'] log]|e]; [|done]. next.
    rewrite IH.
    destruct (run s1 fs) as [[s2 outs1]|e]; [|done]. next.
    by destruct (run s2 gs) as [[s3 outs2]|e].
Qed.

Lemma run_length (fs : list AVFrame) :
  ∀ s s' outs, run s fs = Ok (s', outs) → length outs = length fs.
Proof.
  induction fs as [|f fs IH]; intros s s' outs Hrun; simpl in Hrun.
  - by injection Hrun as <- <-.
  - destruct (filter_frame s f) as [[[s1 f'] log]|e]; [|done].
    cbn [mbind outcome_bind] in Hrun.
    destruct (run s1 fs) as [[s2 outs1]|e] eqn:E; [|done].
    cbn [mbind outcome_bind] in Hrun. injection Hrun as <- <-.
    simpl. f_equal. by eapply IH.
Qed.

(** Call [n] of a session is [filter_frame] in the context that the first
    [n] calls left. *)
Lemma run_split (s : static_maskContext) (fs : list AVFrame)
    (s' : static_maskContext) (outs : list (AVFrame * list comparison))
    (n : nat) (f : AVFrame) :
  run s fs = Ok (s', outs) → fs !! n = Some f →
  ∃ sn sn' out,
    run s (take n fs) = Ok (sn, take n outs) ∧
    filter_frame sn f = Ok (sn', out.1, out.2) ∧
    outs !! n = Some out.
Proof.
  intros Hrun Hf.
  rewrite <- (take_drop_middle fs n f Hf), run_app in Hrun.
  destruct (run s (take n fs)) as [[sn outs1]|e] eqn:E1; [|done].
  cbn [mbind outcome_bind] in Hrun. simpl in Hrun.
  destruct (filter_frame sn f) as [[[sn' f'] log]|e] eqn:E2; [|done].
  cbn [mbind outcome_bind] in Hrun.
  destruct (run sn' (drop (Datatypes.S n) fs)) as [[s2 outs2]|e]; [|done].
  cbn [mbind outcome_bind] in Hrun. injection Hrun as <- <-.
  pose proof (run_length _ _ _ _ E1) as Hlen.
  rewrite length_take_le in Hlen by (apply lookup_lt_Some in Hf; lia).
  exists sn, sn', (f', log). split; [|split; [done|]].
  - by rewrite take_app_length' by done.
  - rewrite <- Hlen. apply list_lookup_middle. done.
Qed.

(** The comparison of cell [c] in call [n] reads row [n mod frame_back] of
    the ring that the first [n] calls left. *)
Lemma session_read (w h : Z) (s : static_maskContext) (fs : list AVFrame)
    (s1 s' : static_maskContext) (outs : list (AVFrame * list comparison))
    (n c : nat) (out : AVFrame * list comparison) (r : comparison) :
  0 < w → 0 < h → 4 ≤ size s ≤ 600 → 1 ≤ frame_back s →
  frames_ok w h fs → Z.of_nat (length fs) ≤ INT_MAX →
  config_input grant_all w h s = Ok (0, s1) →
  run s1 fs = Ok (s', outs) →
  outs !! n = Some out → out.2 !! c = Some r →
  ∃ sn, run s1 (take n fs) = Ok (sn, take n outs) ∧
        frame_count sn = Z.of_nat n ∧
        ring_read (prev_sums sn) (Z.rem (Z.of_nat n) (frame_back s))
                  (Z.of_nat c)
        = Ok (c_prev r).
Proof.
  intros Hw Hh Hsz Hback Hfs Hmax Hcfg Hrun Hout Hr.
  pose proof (run_length _ _ _ _ Hrun) as Hlen.
  assert (is_Some (fs !! n)) as [f Hf].
  { apply lookup_lt_is_Some. rewrite <- Hlen. by eapply lookup_lt_Some. }
  pose proof (lookup_lt_Some _ _ _ Hf) as Hn.
  pose proof (Forall_lookup_1 _ _ _ _ Hfs Hf) as (Hfok & Hfw & Hfh).
  simpl in Hfw, Hfh.
  destruct (run_split _ _ _ _ n f Hrun Hf)
    as (sn & sn' & out' & Hpre & Hcall & Hout').
  assert (out' = out) as -> by congruence.
  destruct (session_spec w h s (take n fs) Hw Hh Hsz Hback)
    as (s1' & sn0 & outs0 & rows & Hcfg' & Hrun' & _ & Hctx & _ & _ & HK & Hfc
        & _ & _).
  { by apply Forall_take. } { rewrite length_take. lia. }
  assert (s1' = s1) as -> by congruence.
  assert (sn0 = sn) as -> by congruence.
  rewrite length_take_le in Hfc by lia.
  exists sn. split; [done|]. split; [done|].
  rewrite <- Hfw, <- Hfh in Hctx.
  destruct (filter_frame_spec sn rows f Hctx Hfok ltac:(lia))
    as (sn2 & f2 & log2 & Hcall2 & [_ _ _ _ _ (cells0 & Hrow & Hent)]).
  assert (log2 = out.2) as -> by congruence.
  destruct (Hent c r Hr) as [_ Hprev _ _ _ _ _].
  rewrite (k_ring _ _ _ _ Hctx).
  replace (Z.rem (Z.of_nat n) (frame_back s)) with (Z.of_nat (buffer_index sn)).
  - apply (ring_read_live _ _ cells0); [|done].
    by rewrite list_lookup_fmap, Hrow.
  - unfold buffer_index. rewrite Hfc, HK. rewrite Z.rem_mod_nonneg by lia.
    pose proof (Z.mod_pos_bound (Z.of_nat n) (frame_back s)). lia.
Qed.

(** * uninit *)

Lemma uninit_rows (n : nat) :
  ∀ (i : nat) (rest : list (list Z)),
    length rest = n →
    run_over
      (fun i rows =>
         match rows !! Z.to_nat i with
         | None => Fault OutOfBounds
         | Some sl => sl' ← av_free_slot sl; Ok (<[Z.to_nat i := sl']> rows)
         end)
      (steps n (Z.of_nat i) 1)
      (replicate i SlotFreed ++ (SlotLive <$> rest))
    = Ok (replicate (i + n) SlotFreed).
Proof.
  induction n as [|n IH]; intros i rest Hlen.
  - destruct rest; [|done]. simpl. by rewrite app_nil_r, Nat.add_0_r.
  - destruct rest as [|cells rest]; [done|]. simpl in Hlen.
    cbn [steps run_over]. rewrite Nat2Z.id.
    rewrite lookup_app_r by (rewrite length_replicate; lia).
    rewrite length_replicate, Nat.sub_diag. cbn [fmap list_fmap lookup list_lookup].
    cbn [av_free_slot]. next.
    rewrite insert_app_r_alt by (rewrite length_replicate; lia).
    rewrite length_replicate, Nat.sub_diag. cbn [insert list_insert].
    replace (Z.of_nat i + 1) with (Z.of_nat (Datatypes.S i)) by lia.
    rewrite cons_middle, app_assoc, <- replicate_S_end.
    rewrite IH by lia.
    by replace (i + Datatypes.S n)%nat with (Datatypes.S i + n)%nat by lia.
Qed.

Lemma uninit_live (s : static_maskContext) (rows : list (list Z)) :
  prev_sums s = RingLive (SlotLive <$> rows) →
  length rows = Z.to_nat (frame_back s) →
  uninit s
  = Ok (set_prev_sums s (RingFreed (replicate (length rows) SlotFreed))).
Proof.
  intros Hring Hrows. unfold uninit. rewrite Hring.
  rewrite (for_fuel_steps _ _ _ (Z.to_nat (frame_back s))); [|lia| |].
  - pose proof (uninit_rows (Z.to_nat (frame_back s)) O rows Hrows) as E.
    simpl in E. change (Z.of_nat 0) with 0 in E. rewrite E. next.
    by rewrite Hrows.
  - intros k Hk. apply Z.ltb_lt. lia.
  - apply Z.ltb_ge. lia.
Qed.

(** * Block sizes 1 to 3 *)

Lemma blocks_first (sz w h : Z) :
  0 < sz → 0 < w → 0 < h → ∃ rest, blocks sz w h = (0, 0) :: rest.
Proof.
  intros Hsz Hw Hh. unfold blocks, origins.
  assert (1 ≤ (w + sz - 1) / sz) as Hgw by (apply Z.div_le_lower_bound; lia).
  assert (1 ≤ (h + sz - 1) / sz) as Hgh by (apply Z.div_le_lower_bound; lia).
  destruct (Z.to_nat ((w + sz - 1) / sz)) as [|nw] eqn:Ew; [lia|].
  destruct (Z.to_nat ((h + sz - 1) / sz)) as [|nh] eqn:Eh; [lia|].
  cbn [steps]. rewrite bind_cons, fmap_cons. simpl. by eexists.
Qed.

Lemma small_size_faults (s : static_maskContext) (rows : list (list Z))
    (f0 : AVFrame) :
  1 ≤ size s ≤ 3 → 1 ≤ frame_back s → 0 ≤ frame_count s →
  prev_sums s = RingLive (SlotLive <$> rows) →
  length rows = Z.to_nat (frame_back s) →
  Forall (fun cells => cells ≠ [] ∧ Forall (fun c => 0 ≤ c < 2 ^ 31) cells) rows →
  frame_ok f0 →
  filter_frame s f0 = Fault DivisionByZero.
Proof.
  intros Hsz Hback Hcount Hring Hrows Hcells Hf0.
  pose proof (ok_w f0 Hf0) as Hw. pose proof (ok_h f0 Hf0) as Hh.
  assert (buffer_index s < length rows)%nat as Hb.
  { unfold buffer_index.
    pose proof (Z.mod_pos_bound (frame_count s) (frame_back s) ltac:(lia)). lia. }
  destruct (lookup_lt_is_Some_2 rows (buffer_index s) Hb) as [cells0 Hrow].
  pose proof (Forall_lookup_1 _ _ _ _ Hcells Hrow) as [Hne Hrange].
  destruct cells0 as [|prev cells0]; [done|].
  apply Forall_cons in Hrange as [Hprev _].
  destruct (blocks_first (size s) (width f0) (height f0)) as [rest Hblocks];
    [lia..|].
  unfold filter_frame, c_mod.
  destruct (Z.eqb_spec (frame_back s) 0); [lia|]. next.
  rewrite Z.rem_mod_nonneg by lia.
  rewrite block_loops_blocks by lia. rewrite Hblocks. cbn [run_blocks].
  replace (frame_count s mod frame_back s) with (Z.of_nat (buffer_index s))
    by (unfold buffer_index;
        pose proof (Z.mod_pos_bound (frame_count s) (frame_back s)); lia).
  unfold process_block. cbn [l_frame l_ring range_counter l_log].
  rewrite block_sum_ok by (try done; lia). next.
  rewrite Hring. change 0 with (Z.of_nat 0) at 1.
  rewrite (ring_read_live _ (buffer_index s) (prev :: cells0) 0 prev);
    [|by rewrite list_lookup_fmap, Hrow|done].
  next.
  pose proof (bsum_bounds (size s) f0 0 0 Hf0 ltac:(lia)) as Hsum.
  pose proof (SUM_MAX_int (size s) ltac:(lia)).
  rewrite abs_delta_exact by lia. next.
  rewrite norm_divisor_zero by done. done.
Qed.

Lemma config_then_small_size (w h : Z) (s : static_maskContext) (f : AVFrame) :
  0 < w → 0 < h → 1 ≤ size s ≤ 3 → 1 ≤ frame_back s → frame_ok f →
  ∃ s1, config_input grant_all w h s = Ok (0, s1) ∧
        filter_frame s1 f = Fault DivisionByZero.
Proof.
  intros Hw Hh Hsz Hback Hf.
  rewrite config_input_ok by (try done; lia).
  eexists. split; [done|].
  pose proof (round_up_div w (size s) ltac:(lia)) as Hgw.
  pose proof (round_up_div h (size s) ltac:(lia)) as Hgh.
  apply (small_size_faults _
           (replicate (Z.to_nat (frame_back s))
              (replicate (Z.to_nat ((w + size s - 1) / size s
                                    * ((h + size s - 1) / size s))) 0)));
    simpl; try done; try lia.
  - by rewrite fmap_replicate.
  - by rewrite length_replicate.
  - apply Forall_replicate. split.
    + assert (0 < (w + size s - 1) / size s * ((h + size s - 1) / size s))
        as Hpos by nia.
      destruct (Z.to_nat _) eqn:E; [lia|done].
    + by apply Forall_replicate.
Qed.

(** * Which pixels a call paints *)

Lemma covers_true (sz w h x y i j : Z) :
  covers sz w h x y i j = true ↔
  (x ≤ i < x + sz ∧ i < w) ∧ (y ≤ j < y + sz ∧ j < h).
Proof.
  unfold covers. rewrite !andb_true_iff, !Z.leb_le, !Z.ltb_lt. lia.
Qed.

Lemma origin_unique (sz x x' i : Z) :
  0 < sz → x mod sz = 0 → x' mod sz = 0 →
  x ≤ i < x + sz → x' ≤ i < x' + sz → x = x'.
Proof.
  intros Hsz Hx Hx' Hi Hi'.
  apply Z.mod_divide in Hx as [q ->]; [|lia].
  apply Z.mod_divide in Hx' as [q' ->]; [|lia].
  assert (q = q') by nia. by subst.
Qed.

Section one_call.
Variables (sz w h : Z) (log : list comparison).
Hypothesis Hsz : 0 < sz.
Hypothesis Hblocks : (fun r => (c_y r, c_x r)) <$> log = blocks sz w h.

Lemma log_block (c : nat) (r : comparison) :
  log !! c = Some r → blocks sz w h !! c = Some (c_y r, c_x r).
Proof. intros Hr. by rewrite <- Hblocks, list_lookup_fmap, Hr. Qed.

Lemma log_origin (c : nat) (r : comparison) :
  log !! c = Some r →
  (0 ≤ c_x r < w ∧ c_x r mod sz = 0) ∧ (0 ≤ c_y r < h ∧ c_y r mod sz = 0).
Proof.
  intros Hr. pose proof (log_block c r Hr) as Hb.
  apply list_elem_of_lookup_2, elem_of_blocks in Hb as [Hy Hx].
  apply elem_of_origins in Hx, Hy; done.
Qed.

Lemma log_same_origin (c c' : nat) (r r' : comparison) :
  log !! c = Some r → log !! c' = Some r' →
  c_x r = c_x r' → c_y r = c_y r' → c = c'.
Proof.
  intros Hr Hr' Ex Ey.
  pose proof (log_block c r Hr) as Hb. pose proof (log_block c' r' Hr') as Hb'.
  rewrite <- Ex, <- Ey in Hb'.
  eapply NoDup_lookup; [by apply (NoDup_blocks sz w h)|done..].
Qed.

Lemma masked_at_elim (k : nat) (i j : Z) :
  masked_at sz w h (take k log) i j = true →
  ∃ c r, (c < k)%nat ∧ log !! c = Some r ∧ c_masked r = true ∧
         covers sz w h (c_x r) (c_y r) i j = true.
Proof.
  unfold masked_at. rewrite existsb_exists. intros (r & Hin & Hr).
  apply andb_true_iff in Hr as [Hm Hc].
  apply list_elem_of_In, list_elem_of_lookup in Hin as [c Hc'].
  apply lookup_take_Some in Hc' as [Hlk Hlt]. by exists c, r.
Qed.

Lemma masked_at_intro (k c : nat) (r : comparison) (i j : Z) :
  log !! c = Some r → (c < k)%nat → c_masked r = true →
  covers sz w h (c_x r) (c_y r) i j = true →
  masked_at sz w h (take k log) i j = true.
Proof.
  intros Hr Hlt Hm Hc. unfold masked_at. apply existsb_exists. exists r.
  split; [|by rewrite Hm, Hc].
  apply list_elem_of_In, list_elem_of_lookup. exists c.
  by rewrite lookup_take_lt.
Qed.

(** A pixel of the square of block [c] is painted only by block [c]. *)
Lemma painted_by_own_block (k c : nat) (r : comparison) (i j : Z) :
  log !! c = Some r →
  c_x r ≤ i < c_x r + sz → c_y r ≤ j < c_y r + sz →
  masked_at sz w h (take k log) i j = true →
  (c < k)%nat ∧ c_masked r = true.
Proof.
  intros Hr Hi Hj Hm.
  apply masked_at_elim in Hm as (c' & r' & Hlt & Hr' & Hm' & Hc').
  apply covers_true in Hc' as [[Hi' _] [Hj' _]].
  destruct (log_origin c r Hr) as [[_ Hx] [_ Hy]].
  destruct (log_origin c' r' Hr') as [[_ Hx'] [_ Hy']].
  assert (c = c') as <-.
  { apply (log_same_origin c c' r r' Hr Hr').
    - by apply (origin_unique sz _ _ i).
    - by apply (origin_unique sz _ _ j). }
  assert (r' = r) as -> by congruence. done.
Qed.

(** With an even block size the chroma sample of a pixel of block [c]
    belongs to block [c] alone. *)
Lemma chroma_by_own_block (k c : nat) (r : comparison) (i j : Z) :
  Z.even sz = true → log !! c = Some r →
  covers sz w h (c_x r) (c_y r) i j = true →
  chroma_of (masked_at sz w h (take k log)) (i / 2) (j / 2) = true →
  (c < k)%nat ∧ c_masked r = true.
Proof.
  intros Heven Hr Hc Hm.
  apply covers_true in Hc as [[Hi _] [Hj _]].
  destruct (log_origin c r Hr) as [[_ Hx] [_ Hy]].
  apply Z.even_spec in Heven as [m Hm2].
  apply Z.mod_divide in Hx as [qx Hqx]; [|lia].
  apply Z.mod_divide in Hy as [qy Hqy]; [|lia].
  assert (c_x r = 2 * (qx * m)) as Ex by lia.
  assert (c_y r = 2 * (qy * m)) as Ey by lia.
  assert (c_x r ≤ 2 * (i / 2) ∧ 2 * (i / 2) + 1 < c_x r + sz) as [Hi0 Hi1].
  { generalize dependent (qx * m). intros. div_lia. }
  assert (c_y r ≤ 2 * (j / 2) ∧ 2 * (j / 2) + 1 < c_y r + sz) as [Hj0 Hj1].
  { generalize dependent (qy * m). intros. div_lia. }
  unfold chroma_of in Hm.
  apply orb_true_iff in Hm as [Hm|Hm]; [apply orb_true_iff in Hm as [Hm|Hm];
    [apply orb_true_iff in Hm as [Hm|Hm]|]|];
    (eapply painted_by_own_block; [exact Hr| | |exact Hm]; lia).
Qed.

(** Every pixel of the picture lies in a block. *)
Lemma pixel_in_block (i j : Z) :
  0 ≤ i < w → 0 ≤ j < h →
  ∃ c r, log !! c = Some r ∧ covers sz w h (c_x r) (c_y r) i j = true.
Proof.
  intros Hi Hj.
  assert ((sz * (j / sz), sz * (i / sz)) ∈ blocks sz w h) as Hin.
  { apply elem_of_blocks.
    pose proof (Z.mul_div_le i sz Hsz). pose proof (Z.mul_div_le j sz Hsz).
    pose proof (Z.div_pos i sz ltac:(lia) Hsz).
    pose proof (Z.div_pos j sz ltac:(lia) Hsz).
    split; apply elem_of_origins; try done;
      (split; [nia|]); rewrite Z.mul_comm; apply Z.mod_mul; lia. }
  rewrite <- Hblocks in Hin.
  apply list_elem_of_fmap in Hin as (r & E & Hin). injection E as Ey Ex.
  apply list_elem_of_lookup in Hin as [c Hc].
  exists c, r. split; [done|]. apply covers_true. rewrite <- Ex, <- Ey.
  pose proof (Z.mul_div_le i sz Hsz). pose proof (Z.mul_div_le j sz Hsz).
  pose proof (Z.mul_succ_div_gt i sz Hsz).
  pose proof (Z.mul_succ_div_gt j sz Hsz). lia.
Qed.
End one_call.

Lemma chroma_of_own (P : Z → Z → bool) (i j : Z) :
  P i j = true → chroma_of P (i / 2) (j / 2) = true.
Proof.
  intros HP. unfold chroma_of.
  assert (i = 2 * (i / 2) ∨ i = 2 * (i / 2) + 1) as Hi by div_lia.
  assert (j = 2 * (j / 2) ∨ j = 2 * (j / 2) + 1) as Hj by div_lia.
  destruct Hi as [Hi|Hi], Hj as [Hj|Hj]; rewrite <- Hi, <- Hj, HP;
    by rewrite ?orb_true_r.
Qed.

(** What a call leaves in the pixels of one block. *)
Lemma call_block_result (s : static_maskContext) (rows : list (list Z))
    (f0 : AVFrame) (s' : static_maskContext) (f' : AVFrame)
    (log : list comparison) (c : nat) (r : comparison) (i j : Z) :
  call_ok s rows f0 s' f' log → 0 < size s → log !! c = Some r →
  covers (size s) (width f0) (height f0) (c_x r) (c_y r) i j = true →
  (c_masked r = true → pixel_painted f' i j) ∧
  (c_masked r = false →
     luma f' i j = luma f0 i j ∧
     (cb f' (i / 2) (j / 2) = cb f0 (i / 2) (j / 2) ∨ cb f' (i / 2) (j / 2) = 128) ∧
     (cr f' (i / 2) (j / 2) = cr f0 (i / 2) (j / 2) ∨ cr f' (i / 2) (j / 2) = 128) ∧
     (Z.even (size s) = true → pixel_unchanged f0 f' i j)).
Proof.
  intros [_ _ _ (Hs & Hl & Hc) Hblocks _] Hsz Hr Hcov.
  destruct (log_origin _ _ _ _ Hsz Hblocks c r Hr) as [[Hx _] [Hy _]].
  pose proof Hcov as [[Hi Hiw] [Hj Hjh]]%covers_true.
  pose proof (lookup_lt_Some _ _ _ Hr) as Hlt.
  specialize (Hl i j ltac:(lia) ltac:(lia)).
  destruct (Hc (i / 2) (j / 2)) as [Hcb Hcr]; [apply half_range; lia..|].
  rewrite <- (take_ge log (length log)) in Hl, Hcb, Hcr by lia.
  split.
  - intros Hm.
    pose proof (masked_at_intro (size s) (width f0) (height f0) log
                  (length log) c r i j Hr Hlt Hm Hcov) as HP.
    rewrite HP in Hl. rewrite (chroma_of_own _ i j HP) in Hcb, Hcr. done.
  - intros Hm.
    assert (masked_at (size s) (width f0) (height f0)
              (take (length log) log) i j = false) as HP.
    { apply not_true_is_false. intros HP.
      destruct (painted_by_own_block _ _ _ _ Hsz Hblocks _ c r i j Hr
                  ltac:(lia) ltac:(lia) HP) as [_ Hm'].
      congruence. }
    rewrite HP in Hl. split; [done|].
    destruct (chroma_of _ (i / 2) (j / 2)) eqn:HC.
    + split; [by right|]. split; [by right|]. intros Heven.
      destruct (chroma_by_own_block _ _ _ _ Hsz Hblocks _ c r i j Heven Hr
                  Hcov HC) as [_ Hm'].
      congruence.
    + split; [by left|]. split; [by left|]. done.
Qed.

(** With an even block size the sum of a block is the sum over the picture
    as it was delivered. *)
Lemma even_sum (s : static_maskContext) (rows : list (list Z))
    (f0 : AVFrame) (s' : static_maskContext) (f' : AVFrame)
    (log : list comparison) (c : nat) (r : comparison) :
  call_ok s rows f0 s' f' log → 0 < size s → Z.even (size s) = true →
  log !! c = Some r →
  c_sum r = bsum (size s) f0 (c_x r) (c_y r).
Proof.
  intros [_ _ _ _ Hblocks (cells0 & _ & Hent)] Hsz Heven Hr.
  destruct (Hent c r Hr) as [_ _ (fk & Hp & _ & ->) _ _ _ _].
  destruct (log_origin _ _ _ _ Hsz Hblocks c r Hr) as [[Hx _] [Hy _]].
  pose proof Hp as ((Hw & Hh & _) & _).
  apply bsum_ext; [done..|]. intros i j Hcov.
  pose proof Hcov as [[Hi Hiw] [Hj Hjh]]%covers_true.
  apply (painted_pix _ _ _ _ _ Hp); [lia..| |].
  - apply not_true_is_false. intros HP.
    destruct (painted_by_own_block _ _ _ _ Hsz Hblocks _ c r i j Hr
                ltac:(lia) ltac:(lia) HP) as [Hlt _]. lia.
  - apply not_true_is_false. intros HC.
    destruct (chroma_by_own_block _ _ _ _ Hsz Hblocks _ c r i j Heven Hr
                Hcov HC) as [Hlt _]. lia.
Qed.

(** * The claims *)

Lemma picture_ok (w h y u v : Z) :
  0 < w → 0 < h → byte y → byte u → byte v → frame_ok (picture w h y u v).
Proof.
  intros Hw Hh Hy Hu Hv.
  assert (0 < (w + 1) / 2) by div_lia. assert (0 < (h + 1) / 2) by div_lia.
  constructor; simpl; rewrite ?length_replicate; try lia;
    by apply Forall_replicate.
Qed.

Lemma frames_ok_replicate (w h : Z) (n : nat) (f : AVFrame) :
  frame_ok f → width f = w → height f = h → frames_ok w h (replicate n f).
Proof. intros. by apply Forall_replicate. Qed.

Lemma lt_double_zero (thr : Q) : (0 < thr)%Q → lt_double 0 thr = true.
Proof.
  intros H. unfold lt_double. apply negb_true_iff, not_true_is_false.
  intros Hle. apply Qle_bool_iff in Hle. by apply Qlt_not_le in H.
Qed.

(** C1 (amended): for every frame of a session and every block of the
    grid, if the normalized delta of the block is below the threshold then
    after filter_frame returns every luma sample of the block's clipped
    extent is 16 and both chroma samples addressed at half resolution are
    128; otherwise every luma sample of the block is the input's, and each
    chroma sample the block addresses is the input's or 128 (painted by a
    neighbouring block that shares it); with an even block size no chroma
    sample is shared and the block is unchanged. *)
Theorem C1_block_painted_or_kept (w h : Z) (s : static_maskContext)
    (fs : list AVFrame) :
  0 < w → 0 < h → 4 ≤ size s ≤ 600 → 1 ≤ frame_back s →
  frames_ok w h fs → Z.of_nat (length fs) ≤ INT_MAX →
  ∃ s1 s' outs,
    config_input grant_all w h s = Ok (0, s1) ∧
    run s1 fs = Ok (s', outs) ∧ length outs = length fs ∧
    (∀ (n : nat) out, outs !! n = Some out →
       (fun r => (c_y r, c_x r)) <$> out.2 = blocks (size s) w h) ∧
    ∀ (n c : nat) f out r i j,
      fs !! n = Some f → outs !! n = Some out → out.2 !! c = Some r →
      covers (size s) w h (c_x r) (c_y r) i j = true →
      c_norm r = Z.abs (c_sum r - c_prev r) / (size s * size s / 10) ∧
      (lt_double (c_norm r) (threshold s) = true → pixel_painted out.1 i j) ∧
      (lt_double (c_norm r) (threshold s) = false →
         luma out.1 i j = luma f i j ∧
         (cb out.1 (i / 2) (j / 2) = cb f (i / 2) (j / 2) ∨
          cb out.1 (i / 2) (j / 2) = 128) ∧
         (cr out.1 (i / 2) (j / 2) = cr f (i / 2) (j / 2) ∨
          cr out.1 (i / 2) (j / 2) = 128) ∧
         (Z.even (size s) = true → pixel_unchanged f out.1 i j)).
Proof.
  intros Hw Hh Hsz Hback Hfs Hmax.
  destruct (session_spec w h s fs Hw Hh Hsz Hback Hfs Hmax)
    as (s1 & s' & outs & rows' & Hcfg & Hrun & Hlen & _ & _ & _ & _ & _ & _
        & Hsteps).
  exists s1, s', outs. repeat (split; [done|]).
  split; [by eapply steps_cover|].
  intros n c f out r i j Hf Hout Hr Hcov.
  pose proof (Forall_lookup_1 _ _ _ _ Hfs Hf) as (_ & Hfw & Hfh). simpl in *.
  destruct (Hsteps n f out Hf Hout)
    as (sn & rows & sn' & Hctx & Hszn & Hthr & _ & _ & _ & _ & Hok).
  pose proof Hok as [_ _ _ _ _ (cells0 & _ & Hent)].
  destruct (Hent c r Hr) as [_ _ _ _ Hdelta Hnorm Hmasked].
  rewrite Hszn, Hthr in *.
  rewrite <- Hfw, <- Hfh, <- Hszn in Hcov.
  destruct (call_block_result sn rows f sn' out.1 out.2 c r i j Hok
              ltac:(lia) Hr Hcov) as [Hpainted Hkept].
  rewrite Hszn, Hmasked in *.
  split; [by rewrite Hnorm, Hdelta|]. done.
Qed.

Lemma C1_witness :
  ∃ s1 s' outs,
    config_input grant_all 8 4 (fresh 4 1 2) = Ok (0, s1) ∧
    run s1 (replicate 3%nat (picture 8 4 200 90 60)) = Ok (s', outs) ∧
    length outs = 3%nat.
Proof.
  destruct (C1_block_painted_or_kept 8 4 (fresh 4 1 2)
              (replicate 3%nat (picture 8 4 200 90 60)))
    as (s1 & s' & outs & H1 & H2 & H3 & _).
  - lia.
  - lia.
  - simpl; lia.
  - simpl; lia.
  - apply frames_ok_replicate; [|reflexivity..].
    apply picture_ok; unfold byte; lia.
  - simpl. unfold INT_MAX. lia.
  - exists s1, s', outs. simpl in H3. done.
Defined.

(** C1 as stated fails for an odd block size: block size 5, threshold 1,
    frame_back 1, twice the same 10 by 5 picture.  In the second call the
    left block is painted; the right block is not (its normalized delta is
    635), yet its chroma sample (2, 0), which pixels 4 and 5 share, went
    from 255 to 128. *)
Lemma C1_counterexample :
  ∃ s1 s2 f1 log1 s3 f2 log2,
    config_input grant_all 10 5 (fresh 5 1 1) = Ok (0, s1) ∧
    filter_frame s1 (picture 10 5 200 255 255) = Ok (s2, f1, log1) ∧
    filter_frame s2 (picture 10 5 200 255 255) = Ok (s3, f2, log2) ∧
    ¬ painted_or_unchanged 5 1 (picture 10 5 200 255 255) f2 log2.
Proof.
  do 7 eexists. split; [vm_compute; reflexivity|].
  split; [vm_compute; reflexivity|]. split; [vm_compute; reflexivity|].
  intros H.
  specialize (H (mkCmp 5 0 1 17750 16480 1270 635 false) 5 0).
  destruct H as (_ & Hcb & _).
  - apply list_elem_of_lookup. by exists 1%nat.
  - reflexivity.
  - vm_compute in Hcb. discriminate.
Qed.

(** C2: with frame_back = K, the value the comparison of frame n reads for
    a cell is the one stored in row n mod K of the ring when the call
    starts; for n >= K it is the sum recorded for that cell during frame
    n - K, and for n < K it is 0. *)
Theorem C2_ring_lookback (w h : Z) (s : static_maskContext) (fs : list AVFrame) :
  0 < w → 0 < h → 4 ≤ size s ≤ 600 → 1 ≤ frame_back s →
  frames_ok w h fs → Z.of_nat (length fs) ≤ INT_MAX →
  ∃ s1 s' outs,
    config_input grant_all w h s = Ok (0, s1) ∧
    run s1 fs = Ok (s', outs) ∧ length outs = length fs ∧
    (∀ (n : nat) out, outs !! n = Some out →
       (fun r => (c_y r, c_x r)) <$> out.2 = blocks (size s) w h) ∧
    ∀ (n c : nat) out r,
      outs !! n = Some out → out.2 !! c = Some r →
      c_cell r = Z.of_nat c ∧
      (∃ sn, run s1 (take n fs) = Ok (sn, take n outs) ∧
             frame_count sn = Z.of_nat n ∧
             ring_read (prev_sums sn)
                       (Z.rem (Z.of_nat n) (frame_back s)) (Z.of_nat c)
             = Ok (c_prev r)) ∧
      (frame_back s ≤ Z.of_nat n →
         ∃ out0 r0, outs !! (n - Z.to_nat (frame_back s))%nat = Some out0 ∧
                    out0.2 !! c = Some r0 ∧ c_cell r0 = Z.of_nat c ∧
                    c_prev r = c_sum r0) ∧
      (Z.of_nat n < frame_back s → c_prev r = 0).
Proof.
  intros Hw Hh Hsz Hback Hfs Hmax.
  destruct (session_spec w h s fs Hw Hh Hsz Hback Hfs Hmax)
    as (s1 & s' & outs & rows' & Hcfg & Hrun & Hlen & _ & _ & _ & _ & _ & _
        & Hsteps).
  exists s1, s', outs. repeat (split; [done|]).
  split; [by eapply steps_cover|].
  intros n c out r Hout Hr.
  destruct (steps_lookback w h (size s) (threshold s)
              (Z.to_nat (frame_back s)) fs outs ltac:(lia) Hlen Hsteps
              n c out r Hout Hr) as (Hcell & Hge & Hlt).
  split; [done|].
  split; [by apply (session_read w h s fs s1 s' outs n c out r)|]. split.
  - intros HK. apply Hge. lia.
  - intros HK. apply Hlt. lia.
Qed.

Lemma C2_witness :
  ∃ s1 s' outs,
    config_input grant_all 8 4 (fresh 4 1 2) = Ok (0, s1) ∧
    run s1 (replicate 3%nat (picture 8 4 200 90 60)) = Ok (s', outs) ∧
    length outs = 3%nat.
Proof.
  destruct (C2_ring_lookback 8 4 (fresh 4 1 2)
              (replicate 3%nat (picture 8 4 200 90 60)))
    as (s1 & s' & outs & H1 & H2 & H3 & _).
  - lia.
  - lia.
  - simpl; lia.
  - simpl; lia.
  - apply frames_ok_replicate; [|reflexivity..].
    apply picture_ok; unfold byte; lia.
  - simpl. unfold INT_MAX. lia.
  - exists s1, s', outs. simpl in H3. done.
Defined.

(** C3: after filter_frame returns for frame n, row n mod K of the ring
    holds, for every cell c, the sum computed for cell c during frame n,
    whether or not the block was painted. *)
Theorem C3_history_overwritten (w h : Z) (s : static_maskContext)
    (fs : list AVFrame) (f : AVFrame) :
  0 < w → 0 < h → 4 ≤ size s ≤ 600 → 1 ≤ frame_back s →
  frames_ok w h (fs ++ [f]) → Z.of_nat (length fs) < INT_MAX →
  ∃ s1 sn outs s' f' log,
    config_input grant_all w h s = Ok (0, s1) ∧
    run s1 fs = Ok (sn, outs) ∧ frame_count sn = Z.of_nat (length fs) ∧
    filter_frame sn f = Ok (s', f', log) ∧
    length log = block_count (size s) w h ∧
    ∀ (c : nat) r,
      log !! c = Some r →
      c_cell r = Z.of_nat c ∧
      ring_read (prev_sums s') (Z.of_nat (length fs) mod frame_back s)
                (Z.of_nat c)
      = Ok (c_sum r).
Proof.
  intros Hw Hh Hsz Hback Hfs Hmax.
  apply Forall_app in Hfs as [Hfs Hf]. apply Forall_singleton in Hf as (Hf & <- & <-).
  destruct (session_spec _ _ s fs Hw Hh Hsz Hback Hfs ltac:(lia))
    as (s1 & sn & outs & rows & Hcfg & Hrun & Hlen & Hctx & Hsz' & _ & HK' & Hfc
        & _ & _).
  destruct (filter_frame_spec sn rows f Hctx Hf ltac:(lia))
    as (s' & f' & log & Hcall & [Hs' Hctx' _ _ Hblocks (cells0 & Hrow & Hent)]).
  exists s1, sn, outs, s', f', log. repeat (split; [done|]).
  assert (length log = block_count (size s) (width f) (height f)) as Hlog.
  { unfold block_count. rewrite <- Hsz', <- Hblocks. by rewrite length_fmap. }
  split; [done|]. intros c r Hr.
  destruct (Hent c r Hr) as [Hcell _ _ _ _ _ _]. split; [done|].
  rewrite Hs'. unfold ctx_after. simpl.
  pose proof (buffer_index_lt _ _ _ _ Hctx) as Hb.
  replace (Z.of_nat (length fs) mod frame_back s)
    with (Z.of_nat (buffer_index sn)).
  - apply (ring_read_live _ _ (c_sum <$> log)).
    + rewrite list_lookup_fmap, list_lookup_insert_eq by done. done.
    + by rewrite list_lookup_fmap, Hr.
  - unfold buffer_index. rewrite Hfc, HK'.
    pose proof (Z.mod_pos_bound (Z.of_nat (length fs)) (frame_back s)). lia.
Qed.

Lemma C3_witness :
  ∃ s1 sn outs s' f' log,
    config_input grant_all 8 4 (fresh 4 1 2) = Ok (0, s1) ∧
    run s1 (replicate 3%nat (picture 8 4 200 90 60)) = Ok (sn, outs) ∧
    filter_frame sn (picture 8 4 16 128 128) = Ok (s', f', log) ∧
    length log = 2%nat.
Proof.
  destruct (C3_history_overwritten 8 4 (fresh 4 1 2)
              (replicate 3%nat (picture 8 4 200 90 60))
              (picture 8 4 16 128 128))
    as (s1 & sn & outs & s' & f' & log & H1 & H2 & _ & H3 & H4 & _).
  - lia.
  - lia.
  - simpl; lia.
  - simpl; lia.
  - apply Forall_app. split.
    + apply frames_ok_replicate; [|reflexivity..].
      apply picture_ok; unfold byte; lia.
    + apply Forall_singleton. split; [|done].
      apply picture_ok; unfold byte; lia.
  - simpl. unfold INT_MAX. lia.
  - exists s1, sn, outs, s', f', log. by repeat (split; [done|]).
Defined.

(** C4: for every block of every frame of a session, the delta that line 85
    compares is the mathematical |sum - history[ringIndex][cell]| of the
    two 64-bit sums (the conversion to int inside abs loses nothing), and
    the normalized value is that delta divided, rounding down, by
    size * size / 10. *)
Theorem C4_delta_exact (w h : Z) (s : static_maskContext) (fs : list AVFrame) :
  0 < w → 0 < h → 4 ≤ size s ≤ 600 → 1 ≤ frame_back s →
  frames_ok w h fs → Z.of_nat (length fs) ≤ INT_MAX →
  ∃ s1 s' outs,
    config_input grant_all w h s = Ok (0, s1) ∧
    run s1 fs = Ok (s', outs) ∧ length outs = length fs ∧
    (∀ (n : nat) out, outs !! n = Some out →
       (fun r => (c_y r, c_x r)) <$> out.2 = blocks (size s) w h) ∧
    ∀ (n c : nat) out r,
      outs !! n = Some out → out.2 !! c = Some r →
      0 ≤ c_sum r < 2 ^ 64 ∧ 0 ≤ c_prev r < 2 ^ 64 ∧
      abs_delta (c_sum r) (c_prev r) = Ok (c_delta r) ∧
      c_delta r = Z.abs (c_sum r - c_prev r) ∧
      normalized (size s) (c_sum r) (c_prev r) = Ok (c_norm r) ∧
      c_norm r = c_delta r / (size s * size s / 10) ∧
      c_masked r = lt_double (c_norm r) (threshold s).
Proof.
  intros Hw Hh Hsz Hback Hfs Hmax.
  destruct (session_spec w h s fs Hw Hh Hsz Hback Hfs Hmax)
    as (s1 & s' & outs & rows' & Hcfg & Hrun & Hlen & _ & _ & _ & _ & _ & _
        & Hsteps).
  exists s1, s', outs. repeat (split; [done|]).
  split; [by eapply steps_cover|].
  intros n c out r Hout Hr.
  assert (is_Some (fs !! n)) as [f Hf].
  { apply lookup_lt_is_Some. rewrite <- Hlen. by eapply lookup_lt_Some. }
  destruct (step_ok_entry _ _ _ _ _ _ _ _ _ _ (Hsteps n f out Hf Hout) Hr)
    as (sn & rows & cells0 & Hctx & Hszn & _ & _ & _ & _ & Hrow & Hent).
  destruct Hent as [_ Hprev _ Hsum Hdelta Hnorm Hmasked].
  pose proof (Forall_lookup_1 _ _ _ _ (k_cells _ _ _ _ Hctx) Hrow) as [_ Hrange].
  pose proof (Forall_lookup_1 _ _ _ _ Hrange Hprev) as Hp. simpl in Hp.
  rewrite Hszn in Hp.
  pose proof (SUM_MAX_int (size s) ltac:(lia)) as Hint.
  assert (2 ^ 31 < 2 ^ 64) by done.
  assert (abs_delta (c_sum r) (c_prev r) = Ok (c_delta r)) as Habs.
  { rewrite abs_delta_exact by lia. by rewrite Hdelta. }
  repeat (split; [done || lia|]).
  split; [|done].
  unfold normalized. rewrite Habs. next.
  rewrite c_div_ok by lia. by rewrite Hnorm.
Qed.

Lemma C4_witness :
  ∃ s1 s' outs,
    config_input grant_all 8 4 (fresh 4 1 2) = Ok (0, s1) ∧
    run s1 (replicate 3%nat (picture 8 4 200 90 60)) = Ok (s', outs) ∧
    length outs = 3%nat.
Proof.
  destruct (C4_delta_exact 8 4 (fresh 4 1 2)
              (replicate 3%nat (picture 8 4 200 90 60)))
    as (s1 & s' & outs & H1 & H2 & H3 & _).
  - lia.
  - lia.
  - simpl; lia.
  - simpl; lia.
  - apply frames_ok_replicate; [|reflexivity..].
    apply picture_ok; unfold byte; lia.
  - simpl. unfold INT_MAX. lia.
  - exists s1, s', outs. simpl in H3. done.
Defined.

(** C5: for every block, clipped or not, the divisor of line 85 is
    size * size / 10, computed from the configured block size; with
    size >= 4 it is not zero and every division is defined, and with size
    in [1, 3] it is 0 (and the first comparison divides by zero). *)
Theorem C5_divisor_nominal (w h : Z) (s : static_maskContext) (f : AVFrame)
    (fs : list AVFrame) :
  0 < w → 0 < h → 1 ≤ size s ≤ 600 → 1 ≤ frame_back s →
  frames_ok w h (f :: fs) → Z.of_nat (length (f :: fs)) ≤ INT_MAX →
  norm_divisor (size s) = size s * size s / 10 ∧
  (4 ≤ size s →
     norm_divisor (size s) ≠ 0 ∧
     ∃ s1 s' outs,
       config_input grant_all w h s = Ok (0, s1) ∧
       run s1 (f :: fs) = Ok (s', outs) ∧ length outs = length (f :: fs) ∧
       ∀ (n : nat) out,
         outs !! n = Some out →
         (fun r => (c_y r, c_x r)) <$> out.2 = blocks (size s) w h ∧
         ∀ r, r ∈ out.2 →
              c_div (c_delta r) (norm_divisor (size s)) = Ok (c_norm r) ∧
              c_norm r = c_delta r / (size s * size s / 10)) ∧
  (size s ≤ 3 →
     norm_divisor (size s) = 0 ∧
     ∃ s1, config_input grant_all w h s = Ok (0, s1) ∧
           filter_frame s1 f = Fault DivisionByZero).
Proof.
  intros Hw Hh Hsz Hback Hfs Hmax.
  split; [apply norm_divisor_div; lia|]. split.
  - intros Hsz4. pose proof (norm_divisor_pos (size s) Hsz4) as Hpos.
    split; [lia|].
    destruct (session_spec w h s (f :: fs) Hw Hh ltac:(lia) Hback Hfs Hmax)
      as (s1 & s' & outs & rows' & Hcfg & Hrun & Hlen & _ & _ & _ & _ & _ & _
          & Hsteps).
    exists s1, s', outs. repeat (split; [done|]).
    intros n out Hout.
    assert (is_Some ((f :: fs) !! n)) as [g Hg].
    { apply lookup_lt_is_Some. rewrite <- Hlen. by eapply lookup_lt_Some. }
    pose proof (Forall_lookup_1 _ _ _ _ Hfs Hg) as (_ & Hgw & Hgh).
    simpl in Hgw, Hgh.
    destruct (Hsteps n g out Hg Hout)
      as (sn & rows & sn' & _ & Hszn & _ & _ & _ & _ & _ & Hok).
    destruct Hok as [_ _ _ _ Hblocks (cells0 & _ & Hent)].
    rewrite Hszn, Hgw, Hgh in Hblocks. split; [done|].
    intros r Hr. apply list_elem_of_lookup in Hr as [c Hr].
    destruct (Hent c r Hr) as [_ _ _ _ Hdelta Hnorm _]. rewrite Hszn in Hnorm.
    split; [|done].
    rewrite c_div_ok by (rewrite ?Hdelta; lia). by rewrite Hnorm.
  - intros Hsz3. split; [apply norm_divisor_zero; lia|].
    apply Forall_cons in Hfs as [(Hf & _ & _) _].
    apply config_then_small_size; try done; lia.
Qed.

Lemma C5_witness :
  norm_divisor 4 = 1 ∧
  ∃ s1 s' outs,
    config_input grant_all 10 5 (fresh 4 1 2) = Ok (0, s1) ∧
    run s1 (replicate 3%nat (picture 10 5 200 90 60)) = Ok (s', outs) ∧
    length outs = 3%nat.
Proof.
  destruct (C5_divisor_nominal 10 5 (fresh 4 1 2) (picture 10 5 200 90 60)
              (replicate 2%nat (picture 10 5 200 90 60)))
    as (H0 & H4 & _).
  - lia.
  - lia.
  - simpl; lia.
  - simpl; lia.
  - apply (frames_ok_replicate 10 5 3); [|reflexivity..].
    apply picture_ok; unfold byte; lia.
  - simpl. unfold INT_MAX. lia.
  - split; [reflexivity|].
    destruct H4 as (_ & s1 & s' & outs & H1 & H2 & H3 & _); [simpl; lia|].
    by exists s1, s', outs.
Defined.

(** C6: with frame width w > 0, height h > 0 and block size s, config_input
    sets prev_width = ceil (w / s) and prev_height = ceil (h / s), allocates
    exactly frame_back rows of prev_width * prev_height entries, all zero,
    and resets frame_count to 0 (whatever it was). *)
Theorem C6_config_input_grid (alloc : nat → bool) (w h : Z)
    (s : static_maskContext) :
  (∀ k, alloc k = true) → 0 < w → 0 < h → 1 ≤ size s → 1 ≤ frame_back s →
  ∃ s', config_input alloc w h s = Ok (0, s') ∧
        (prev_width s' - 1) * size s < w ≤ prev_width s' * size s ∧
        (prev_height s' - 1) * size s < h ≤ prev_height s' * size s ∧
        prev_sums s'
        = RingLive (replicate (Z.to_nat (frame_back s))
                      (SlotLive (replicate
                                   (Z.to_nat (prev_width s' * prev_height s'))
                                   0))) ∧
        frame_count s' = 0 ∧
        size s' = size s ∧ frame_back s' = frame_back s.
Proof.
  intros Halloc Hw Hh Hsz Hback.
  rewrite config_input_ok by (try done; lia).
  eexists. split; [done|]. simpl.
  pose proof (round_up_div w (size s) ltac:(lia)).
  pose proof (round_up_div h (size s) ltac:(lia)).
  done.
Qed.

Lemma C6_witness :
  ∃ s', config_input grant_all 10 5 (mkCtx 4 20 3 RingNull 0 0 7) = Ok (0, s') ∧
        (prev_width s' - 1) * 4 < 10 ≤ prev_width s' * 4 ∧
        (prev_height s' - 1) * 4 < 5 ≤ prev_height s' * 4 ∧
        prev_sums s'
        = RingLive (replicate 3%nat
                      (SlotLive (replicate
                                   (Z.to_nat (prev_width s' * prev_height s'))
                                   0))) ∧
        frame_count s' = 0 ∧ size s' = 4 ∧ frame_back s' = 3.
Proof.
  apply (C6_config_input_grid grant_all 10 5 (mkCtx 4 20 3 RingNull 0 0 7));
    [done|simpl; lia..].
Defined.

(** C7 (amended): with an even block size, if the same picture is delivered
    on frame_back + 1 consecutive calls (and the threshold is positive),
    then in the last of them, and in every later one for which this still
    holds, every block has delta 0 against the sum recorded frame_back
    calls earlier, is classified static, and the whole picture is
    painted. *)
Theorem C7_static_picture_masked (w h : Z) (s : static_maskContext)
    (fs : list AVFrame) (f : AVFrame) (n : nat) :
  0 < w → 0 < h → 4 ≤ size s ≤ 600 → 1 ≤ frame_back s →
  frames_ok w h fs → Z.of_nat (length fs) ≤ INT_MAX →
  Z.even (size s) = true → (0 < threshold s)%Q →
  (Z.to_nat (frame_back s) ≤ n)%nat →
  (∀ m, (n - Z.to_nat (frame_back s) ≤ m ≤ n)%nat → fs !! m = Some f) →
  ∃ s1 s' outs out,
    config_input grant_all w h s = Ok (0, s1) ∧
    run s1 fs = Ok (s', outs) ∧ outs !! n = Some out ∧
    length out.2 = block_count (size s) w h ∧
    (∀ r, r ∈ out.2 → c_delta r = 0 ∧ c_norm r = 0) ∧
    all_masked out.2 ∧
    ∀ i j, 0 ≤ i < w → 0 ≤ j < h → pixel_painted out.1 i j.
Proof.
  intros Hw Hh Hsz Hback Hfs Hmax Heven Hthr HKn Hsame.
  destruct (session_spec w h s fs Hw Hh Hsz Hback Hfs Hmax)
    as (s1 & s' & outs & rows' & Hcfg & Hrun & Hlen & _ & _ & _ & _ & _ & _
        & Hsteps).
  set (K := Z.to_nat (frame_back s)) in *.
  pose proof (Hsame n ltac:(lia)) as Hf.
  pose proof (Hsame (n - K)%nat ltac:(lia)) as Hf0.
  assert (is_Some (outs !! n)) as [out Hout].
  { apply lookup_lt_is_Some. rewrite Hlen. by eapply lookup_lt_Some. }
  pose proof (Forall_lookup_1 _ _ _ _ Hfs Hf) as (_ & Hfw & Hfh). simpl in *.
  destruct (Hsteps n f out Hf Hout)
    as (sn & rows & sn' & Hctx & Hszn & Hthrn & _ & _ & _ & _ & Hok).
  pose proof Hok as [_ _ _ _ Hblocks (cells0 & _ & Hent)].
  rewrite Hszn, Hfw, Hfh in Hblocks.
  assert (∀ c r, out.2 !! c = Some r →
                 c_delta r = 0 ∧ c_norm r = 0 ∧ c_masked r = true) as Hzero.
  { intros c r Hr.
    destruct (steps_lookback w h (size s) (threshold s) K fs outs ltac:(lia)
                Hlen Hsteps n c out r Hout Hr)
      as (_ & Hge & _).
    destruct (Hge HKn) as (out0 & r0 & Hout0 & Hr0 & _ & Hprev).
    destruct (Hsteps (n - K)%nat f out0 Hf0 Hout0)
      as (s0 & rows0 & s0' & _ & Hsz0 & _ & _ & _ & _ & _ & Hok0).
    pose proof Hok0 as [_ _ _ _ Hblocks0 _].
    rewrite Hsz0, Hfw, Hfh in Hblocks0.
    pose proof (log_block _ _ _ _ Hblocks c r Hr) as Hb.
    pose proof (log_block _ _ _ _ Hblocks0 c r0 Hr0) as Hb0.
    assert (c_y r0 = c_y r ∧ c_x r0 = c_x r) as [Ey Ex].
    { rewrite Hb in Hb0. by injection Hb0. }
    pose proof (even_sum sn rows f sn' out.1 out.2 c r Hok
                  ltac:(lia) ltac:(by rewrite Hszn) Hr) as Hsum.
    pose proof (even_sum s0 rows0 f s0' out0.1 out0.2 c r0 Hok0
                  ltac:(lia) ltac:(by rewrite Hsz0) Hr0) as Hsum0.
    rewrite Hszn in Hsum. rewrite Hsz0, Ex, Ey in Hsum0.
    destruct (Hent c r Hr) as [_ _ _ _ Hdelta Hnorm Hmasked].
    assert (c_delta r = 0) as Hd.
    { rewrite Hdelta, Hprev, Hsum, Hsum0. by rewrite Z.sub_diag. }
    assert (c_norm r = 0) as Hn by (by rewrite Hnorm, Hd).
    repeat (split; [done|]).
    rewrite Hmasked, Hn, Hthrn. by apply lt_double_zero. }
  exists s1, s', outs, out. repeat (split; [done|]).
  split; [|split; [|split]].
  - unfold block_count. by rewrite <- Hblocks, length_fmap.
  - intros r Hr. apply list_elem_of_lookup in Hr as [c Hr].
    by destruct (Hzero c r Hr) as (? & ? & _).
  - apply Forall_lookup. intros c r Hr. by destruct (Hzero c r Hr) as (_ & _ & ?).
  - intros i j Hi Hj.
    destruct (pixel_in_block (size s) w h out.2 ltac:(lia) Hblocks i j Hi Hj)
      as (c & r & Hr & Hcov).
    rewrite <- Hszn, <- Hfw, <- Hfh in Hcov.
    destruct (call_block_result sn rows f sn' out.1 out.2 c r i j Hok
                ltac:(lia) Hr Hcov) as [Hpainted _].
    apply Hpainted. by destruct (Hzero c r Hr) as (_ & _ & ?).
Qed.

Lemma C7_witness :
  ∃ s1 s' outs out,
    config_input grant_all 8 4 (fresh 4 (1 # 2) 2) = Ok (0, s1) ∧
    run s1 (replicate 3%nat (picture 8 4 200 90 60)) = Ok (s', outs) ∧
    outs !! 2%nat = Some out ∧ all_masked out.2.
Proof.
  destruct (C7_static_picture_masked 8 4 (fresh 4 (1 # 2) 2)
              (replicate 3%nat (picture 8 4 200 90 60))
              (picture 8 4 200 90 60) 2)
    as (s1 & s' & outs & out & H1 & H2 & H3 & _ & _ & H4 & _).
  - lia.
  - lia.
  - simpl; lia.
  - simpl; lia.
  - apply frames_ok_replicate; [|reflexivity..].
    apply picture_ok; unfold byte; lia.
  - simpl. unfold INT_MAX. lia.
  - reflexivity.
  - reflexivity.
  - simpl. lia.
  - intros m Hm. simpl in Hm. apply lookup_replicate_2. lia.
  - by exists s1, s', outs, out.
Defined.

(** C7 as stated fails for an odd block size: block size 5, threshold 1,
    frame_back 1, twice the same 10 by 5 picture.  In the second call the
    left block is painted, which changes the chroma samples that the right
    block shares with it; the right block's sum moves by 1270 and it is
    not classified static. *)
Lemma C7_counterexample :
  ∃ s1 s' o1 o2,
    config_input grant_all 10 5 (fresh 5 1 1) = Ok (0, s1) ∧
    run s1 (replicate 2%nat (picture 10 5 200 255 255)) = Ok (s', [o1; o2]) ∧
    ¬ all_masked o2.2.
Proof.
  do 4 eexists. split; [vm_compute; reflexivity|].
  split; [vm_compute; reflexivity|].
  intros H. apply Forall_lookup_1 with (i := 1%nat)
    (x := mkCmp 5 0 1 17750 16480 1270 635 false) in H; [|reflexivity].
  simpl in H. discriminate.
Qed.

(** C8: the options table accepts size = 0 (its minimum is 0, not 1), and
    config_input then divides by zero. *)
Theorem C8_size_zero_accepted (alloc : nat → bool) (w h : Z) (thr : Q) (K : Z) :
  (∀ v, option_accepts opt_size v = true ↔ (0 <= v)%Q ∧ (v <= 600)%Q) ∧
  option_accepts opt_size 0 = true ∧
  option_accepts opt_frame_back 0 = false ∧
  config_input alloc w h (fresh 0 thr K) = Fault DivisionByZero.
Proof.
  split; [|by repeat split].
  intros v. unfold option_accepts. simpl.
  by rewrite andb_true_iff, !Qle_bool_iff.
Qed.

(** C9 (amended): uninit is a no-op on a context that was never set up,
    and called once on a context whose ring is allocated it releases every
    row and the array of rows, each once.  It leaves the pointer as it was,
    so a second call is not a no-op: it reads the released array. *)
Theorem C9_uninit_once (s : static_maskContext) (rows : list (list Z)) :
  prev_sums s = RingLive (SlotLive <$> rows) →
  length rows = Z.to_nat (frame_back s) → 1 ≤ frame_back s →
  (∀ s0, prev_sums s0 = RingNull → uninit s0 = Ok s0) ∧
  ∃ s2, uninit s = Ok s2 ∧
        prev_sums s2 = RingFreed (replicate (length rows) SlotFreed) ∧
        uninit s2 = Fault UseAfterFree.
Proof.
  intros Hring Hrows Hback. split.
  - intros s0 H0. unfold uninit. by rewrite H0.
  - rewrite (uninit_live s rows Hring Hrows).
    eexists. split; [done|]. split; [done|].
    unfold uninit. simpl. by destruct (Z.ltb_spec 0 (frame_back s)); [|lia].
Qed.

Lemma C9_witness :
  ∃ s2, uninit (mkCtx 4 20 2 (RingLive [SlotLive [7; 9]; SlotLive [0; 0]]) 2 1 1)
        = Ok s2 ∧
        prev_sums s2 = RingFreed [SlotFreed; SlotFreed].
Proof.
  destruct (C9_uninit_once
              (mkCtx 4 20 2 (RingLive [SlotLive [7; 9]; SlotLive [0; 0]]) 2 1 1)
              [[7; 9]; [0; 0]]) as (_ & s2 & H1 & H2 & _).
  - reflexivity.
  - reflexivity.
  - simpl. lia.
  - by exists s2.
Defined.

(** C9 as stated fails: after config_input, the first uninit succeeds and
    the second one faults. *)
Lemma C9_counterexample :
  ∃ s1 s2,
    config_input grant_all 10 5 (fresh 5 1 1) = Ok (0, s1) ∧
    uninit s1 = Ok s2 ∧
    uninit s2 = Fault UseAfterFree ∧ uninit s2 ≠ Ok s2.
Proof.
  do 2 eexists. split; [vm_compute; reflexivity|].
  split; [vm_compute; reflexivity|]. split; [reflexivity|discriminate].
Qed.

(** C10: within one call of filter_frame the sum of a block is taken over
    the picture as it is when the block is visited: the input with the
    blocks painted that were classified static earlier in the call.  With
    an odd block size the pixels on both sides of every second block
    boundary address the same chroma sample, so painting a block can change
    the pixels and the recorded sum of a block visited later in the same
    call (as it does for block size 5 on a 10 by 5 picture). *)
Theorem C10_sum_of_current_picture (w h : Z) (s : static_maskContext)
    (fs : list AVFrame) :
  0 < w → 0 < h → 4 ≤ size s ≤ 600 → 1 ≤ frame_back s →
  frames_ok w h fs → Z.of_nat (length fs) ≤ INT_MAX →
  (∃ s1 s' outs,
     config_input grant_all w h s = Ok (0, s1) ∧
     run s1 fs = Ok (s', outs) ∧ length outs = length fs ∧
     (∀ (n : nat) out, outs !! n = Some out →
        (fun r => (c_y r, c_x r)) <$> out.2 = blocks (size s) w h) ∧
     ∀ (n c : nat) f out r,
       fs !! n = Some f → outs !! n = Some out → out.2 !! c = Some r →
       ∃ fk, painted (masked_at (size s) w h (take c out.2)) f fk ∧
             block_sum (size s) fk (c_x r) (c_y r) = Ok (c_sum r)) ∧
  (∀ k, Z.odd (size s) = true → Z.odd k = true → 0 < k →
        Z.quot (k * size s - 1) 2 = Z.quot (k * size s) 2) ∧
  (∃ s1 s2 f1 log1 s3 f2 log2 r,
     config_input grant_all 10 5 (fresh 5 1 1) = Ok (0, s1) ∧
     filter_frame s1 (picture 10 5 200 255 255) = Ok (s2, f1, log1) ∧
     filter_frame s2 (picture 10 5 200 255 255) = Ok (s3, f2, log2) ∧
     log2 !! 1%nat = Some r ∧ c_x r = 5 ∧ c_y r = 0 ∧ c_masked r = false ∧
     block_sum 5 (picture 10 5 200 255 255) 5 0 = Ok 17750 ∧
     c_sum r = 16480 ∧
     ring_read (prev_sums s3) 0 1 = Ok 16480 ∧
     cb (picture 10 5 200 255 255) (5 / 2) (0 / 2) = 255 ∧
     cb f2 (5 / 2) (0 / 2) = 128).
Proof.
  intros Hw Hh Hsz Hback Hfs Hmax. split; [|split].
  - destruct (session_spec w h s fs Hw Hh Hsz Hback Hfs Hmax)
      as (s1 & s' & outs & rows' & Hcfg & Hrun & Hlen & _ & _ & _ & _ & _ & _
          & Hsteps).
    exists s1, s', outs. repeat (split; [done|]).
    split; [by eapply steps_cover|].
    intros n c f out r Hf Hout Hr.
    pose proof (Forall_lookup_1 _ _ _ _ Hfs Hf) as (_ & Hfw & Hfh).
    simpl in Hfw, Hfh.
    destruct (Hsteps n f out Hf Hout)
      as (sn & rows & sn' & _ & Hszn & _ & _ & _ & _ & _ & Hok).
    destruct Hok as [_ _ _ _ Hblocks (cells0 & _ & Hent)].
    destruct (Hent c r Hr) as [_ _ (fk & Hp & Hfk & Hsum) _ _ _ _].
    rewrite Hszn, Hfw, Hfh in *.
    destruct (log_origin (size s) w h out.2 ltac:(lia) Hblocks c r Hr)
      as [[Hx _] [Hy _]].
    exists fk. split; [done|].
    rewrite block_sum_ok by (try done; lia). by rewrite Hsum.
  - intros k Hodd Hk Hpos.
    assert (Z.odd (k * size s) = true) as Hx by (by rewrite Z.odd_mul, Hodd, Hk).
    apply Z.odd_spec in Hx as [m Hm].
    rewrite !Z.quot_div_nonneg by nia. rewrite Hm. div_lia.
  - do 8 eexists. split; [vm_compute; reflexivity|].
    split; [vm_compute; reflexivity|]. split; [vm_compute; reflexivity|].
    split; [reflexivity|]. by vm_compute.
Qed.

Lemma C10_witness :
  ∃ s1 s' outs,
    config_input grant_all 10 5 (fresh 5 1 2) = Ok (0, s1) ∧
    run s1 (replicate 3%nat (picture 10 5 200 255 255)) = Ok (s', outs) ∧
    length outs = 3%nat.
Proof.
  destruct (C10_sum_of_current_picture 10 5 (fresh 5 1 2)
              (replicate 3%nat (picture 10 5 200 255 255)))
    as ((s1 & s' & outs & H1 & H2 & H3 & _) & _).
  - lia.
  - lia.
  - simpl; lia.
  - simpl; lia.
  - apply frames_ok_replicate; [|reflexivity..].
    apply picture_ok; unfold byte; lia.
  - simpl. unfold INT_MAX. lia.
  - by exists s1, s', outs.
Defined.

(** * Further properties of config_input: refused allocations *)

Lemma steps_add (n m : nat) (v step : Z) :
  steps (n + m) v step = steps n v step ++ steps m (v + step * Z.of_nat n) step.
Proof.
  revert v. induction n as [|n IH]; intros v; simpl.
  - f_equal. lia.
  - rewrite IH.
    by replace (v + step + step * Z.of_nat n)
      with (v + step * Z.of_nat (Datatypes.S n)) by lia.
Qed.

Lemma run_over_cat {S : Type} (body : Z → S → outcome S) (us vs : list Z) (st : S) :
  run_over body (us ++ vs) st = (st' ← run_over body us st; run_over body vs st').
Proof.
  revert st. induction us as [|u us IH]; intros st; simpl; [done|].
  destruct (body u st) as [st'|e]; simpl; [apply IH|done].
Qed.

(** The rows that the loop of lines 117-121 has assigned while the requests
    are granted. *)
Lemma config_rows_granted (alloc : nat → bool) (L : slot) (n : nat) :
  ∀ (i rest : nat),
    (∀ k, (i < k ≤ i + n)%nat → alloc k = true) →
    run_over
      (fun i (st : list slot * bool) =>
         let '(rows, failed) := st in
         if failed then Ok st
         else if alloc (Datatypes.S (Z.to_nat i))
              then Ok (<[Z.to_nat i := L]> rows, false)
              else Ok (rows, true))
      (steps n (Z.of_nat i) 1)
      (replicate i L ++ replicate (n + rest) SlotUninit, false)
    = Ok (replicate (i + n) L ++ replicate rest SlotUninit, false).
Proof.
  induction n as [|n IH]; intros i rest Halloc; simpl.
  - by rewrite Nat.add_0_r.
  - rewrite Halloc by lia. next. rewrite Nat2Z.id.
    rewrite insert_app_r_alt by (rewrite length_replicate; lia).
    rewrite length_replicate, Nat.sub_diag. simpl.
    replace (Z.of_nat i + 1) with (Z.of_nat (Datatypes.S i)) by lia.
    rewrite cons_middle, app_assoc, <- replicate_S_end.
    rewrite IH by (intros k Hk; apply Halloc; lia).
    by replace (i + Datatypes.S n)%nat with (Datatypes.S i + n)%nat by lia.
Qed.

(** Once a request was refused the loop has returned: nothing changes. *)
Lemma config_rows_refused (alloc : nat → bool) (L : slot) (vs : list Z)
    (rows : list slot) :
  run_over
    (fun i (st : list slot * bool) =>
       let '(rows, failed) := st in
       if failed then Ok st
       else if alloc (Datatypes.S (Z.to_nat i))
            then Ok (<[Z.to_nat i := L]> rows, false)
            else Ok (rows, true))
    vs (rows, true)
  = Ok (rows, true).
Proof. induction vs as [|v vs IH]; simpl; [done|]. by next. Qed.

Lemma config_input_granted (alloc : nat → bool) (w h : Z) (s : static_maskContext) :
  size s ≠ 0 → 0 ≤ frame_back s →
  (∀ k, (k ≤ Z.to_nat (frame_back s))%nat → alloc k = true) →
  config_input alloc w h s
  = Ok (0, mkCtx (size s) (threshold s) (frame_back s)
             (RingLive (replicate (Z.to_nat (frame_back s))
                          (SlotLive (replicate
                             (Z.to_nat (Z.quot (w + size s - 1) (size s)
                                        * Z.quot (h + size s - 1) (size s)))
                             0))))
             (Z.quot (w + size s - 1) (size s))
             (Z.quot (h + size s - 1) (size s)) 0).
Proof.
  intros Hsz Hback Halloc. unfold config_input, c_div.
  destruct (Z.eqb_spec (size s) 0); [done|]. next.
  rewrite Halloc by lia. cbn [negb].
  rewrite (for_fuel_steps _ _ _ (Z.to_nat (frame_back s))); [|lia| |].
  - pose proof (config_rows_granted alloc
      (SlotLive (replicate (Z.to_nat (Z.quot (w + size s - 1) (size s)
                                      * Z.quot (h + size s - 1) (size s))) 0))
      (Z.to_nat (frame_back s)) O O ltac:(intros k Hk; apply Halloc; lia)) as E.
    simpl in E. change (Z.of_nat 0) with 0 in E.
    rewrite Nat.add_0_r, app_nil_r in E. rewrite E. by next.
  - intros k Hk. apply Z.ltb_lt. lia.
  - apply Z.ltb_ge. lia.
Qed.

Lemma config_input_row_refused (alloc : nat → bool) (w h : Z)
    (s : static_maskContext) (i : nat) :
  size s ≠ 0 → Z.of_nat i < frame_back s →
  (∀ k, (k ≤ i)%nat → alloc k = true) → alloc (Datatypes.S i) = false →
  config_input alloc w h s
  = Ok (AVERROR ENOMEM,
        mkCtx (size s) (threshold s) (frame_back s)
          (RingLive (replicate i
                       (SlotLive (replicate
                          (Z.to_nat (Z.quot (w + size s - 1) (size s)
                                     * Z.quot (h + size s - 1) (size s)))
                          0))
                     ++ replicate (Z.to_nat (frame_back s) - i) SlotUninit))
          (Z.quot (w + size s - 1) (size s))
          (Z.quot (h + size s - 1) (size s)) (frame_count s)).
Proof.
  intros Hsz Hi Halloc Hrefused. unfold config_input, c_div.
  destruct (Z.eqb_spec (size s) 0); [done|]. next.
  rewrite Halloc by lia. cbn [negb].
  rewrite (for_fuel_steps _ _ _ (Z.to_nat (frame_back s))); [|lia| |].
  - replace (Z.to_nat (frame_back s))
      with (i + Datatypes.S (Z.to_nat (frame_back s) - Datatypes.S i))%nat
      at 1 2 by lia.
    rewrite steps_add, run_over_cat.
    pose proof (config_rows_granted alloc
      (SlotLive (replicate (Z.to_nat (Z.quot (w + size s - 1) (size s)
                                      * Z.quot (h + size s - 1) (size s))) 0))
      i O (Datatypes.S (Z.to_nat (frame_back s) - Datatypes.S i))
      ltac:(intros k Hk; apply Halloc; lia)) as E.
    cbn [replicate app Nat.add] in E. change (Z.of_nat 0) with 0 in E.
    rewrite E. next. cbn [steps run_over].
    replace (0 + 1 * Z.of_nat i) with (Z.of_nat i) by lia.
    rewrite Nat2Z.id, Hrefused. next.
    rewrite config_rows_refused. next. unfold set_prev_sums. simpl.
    by replace (Z.to_nat (frame_back s) - i)%nat
      with (Datatypes.S (Z.to_nat (frame_back s) - Datatypes.S i)) by lia.
  - intros k Hk. apply Z.ltb_lt. lia.
  - apply Z.ltb_ge. lia.
Qed.

Lemma first_refusal (alloc : nat → bool) (K : nat) :
  (∀ k, (k ≤ K)%nat → alloc k = true) ∨
  ∃ m, (m ≤ K)%nat ∧ alloc m = false ∧ ∀ k, (k < m)%nat → alloc k = true.
Proof.
  induction K as [|K IH].
  - destruct (alloc O) eqn:E.
    + left. intros k Hk. by replace k with O by lia.
    + right. exists O. split; [lia|]. split; [done|]. intros k Hk. lia.
  - destruct IH as [Hall|(m & Hm & Hf & Hlt)].
    + destruct (alloc (Datatypes.S K)) eqn:E.
      * left. intros k Hk.
        destruct (decide (k = Datatypes.S K)) as [->|]; [done|]. apply Hall. lia.
      * right. exists (Datatypes.S K). split; [lia|]. split; [done|].
        intros k Hk. apply Hall. lia.
    + right. exists m. split; [lia|]. done.
Qed.



(** X1: config_input does not fault for a block size other than 0; it
    returns 0 (and clears frame_count) exactly when the array of rows and
    all frame_back rows are granted, and AVERROR(ENOMEM) = -12 (leaving
    frame_count as it was) as soon as one of these requests is refused.  In
    both cases prev_width and prev_height are set.  When the refused
    request is the array itself, prev_sums is NULL afterwards, whatever it
    held before, and uninit is a no-op. *)
Theorem X1_config_input_return_code (alloc : nat → bool) (w h : Z)
    (s : static_maskContext) :
  size s ≠ 0 → 0 ≤ frame_back s →
  ∃ code s',
    config_input alloc w h s = Ok (code, s') ∧
    prev_width s' = Z.quot (w + size s - 1) (size s) ∧
    prev_height s' = Z.quot (h + size s - 1) (size s) ∧
    ((code = 0 ∧ frame_count s' = 0 ∧
      ∀ k, (k ≤ Z.to_nat (frame_back s))%nat → alloc k = true) ∨
     (code = -12 ∧ frame_count s' = frame_count s ∧
      (∃ k, (k ≤ Z.to_nat (frame_back s))%nat ∧ alloc k = false) ∧
      (alloc O = false → prev_sums s' = RingNull ∧ uninit s' = Ok s'))).
Proof.
  intros Hsz Hback.
  destruct (first_refusal alloc (Z.to_nat (frame_back s)))
    as [Hall|(m & Hm & Hf & Hlt)].
  - rewrite config_input_granted by done.
    do 2 eexists. split; [done|]. simpl. repeat (split; [done|]). by left.
  - destruct m as [|i].
    + unfold config_input, c_div.
      destruct (Z.eqb_spec (size s) 0); [done|]. next. rewrite Hf. cbn [negb].
      do 2 eexists. split; [done|]. simpl. repeat (split; [done|]).
      right. repeat (split; [done|]). split; [|done].
      exists O. split; [lia|done].
    + rewrite (config_input_row_refused alloc w h s i); [|done|lia| |done].
      * do 2 eexists. split; [done|]. simpl. repeat (split; [done|]).
        right. repeat (split; [done|]). split; [by exists (Datatypes.S i)|].
        intros H0. rewrite Hlt in H0 by lia. done.
      * intros k Hk. apply Hlt. lia.
Qed.

Lemma X1_witness :
  ∃ code s',
    config_input (fun k => (k <? 2)%nat) 10 5 (mkCtx 4 20 3 RingNull 0 0 7)
    = Ok (code, s') ∧ prev_width s' = 3 ∧ prev_height s' = 2.
Proof.
  destruct (X1_config_input_return_code (fun k => (k <? 2)%nat) 10 5
              (mkCtx 4 20 3 RingNull 0 0 7))
    as (code & s' & H1 & H2 & H3 & _).
  - simpl. lia.
  - simpl. lia.
  - by exists code, s'.
Defined.



(** * Further properties of filter_frame: what one call changes *)

(** X3: a call of filter_frame leaves size, threshold, frame_back,
    prev_width and prev_height as they were, adds exactly 1 to
    frame_count, and writes only row frame_count mod frame_back of the
    ring: every other row reads as before. *)
Theorem X3_call_changes_one_row (s : static_maskContext)
    (rows : list (list Z)) (f : AVFrame) :
  ctx_ok (width f) (height f) rows s → frame_ok f → frame_count s < INT_MAX →
  ∃ s' f' log,
    filter_frame s f = Ok (s', f', log) ∧
    size s' = size s ∧ threshold s' = threshold s ∧
    frame_back s' = frame_back s ∧
    prev_width s' = prev_width s ∧ prev_height s' = prev_height s ∧
    frame_count s' = frame_count s + 1 ∧
    ∀ b c, 0 ≤ b → b ≠ frame_count s mod frame_back s →
           ring_read (prev_sums s') b c = ring_read (prev_sums s) b c.
Proof.
  intros Hctx Hf Hfc.
  destruct (filter_frame_spec s rows f Hctx Hf Hfc)
    as (s' & f' & log & Hcall & [-> _ _ _ _ _]).
  exists (ctx_after s rows log), f', log. split; [done|]. simpl.
  repeat (split; [done|]).
  intros b c Hb Hne. rewrite (k_ring _ _ _ _ Hctx). unfold ring_read.
  destruct (Z.ltb_spec b 0); [lia|].
  assert (buffer_index s ≠ Z.to_nat b) as Hnb.
  { unfold buffer_index. intros E. apply Hne.
    pose proof (Z.mod_pos_bound (frame_count s) (frame_back s)
                  ltac:(destruct Hctx; lia)). lia. }
  by rewrite !list_lookup_fmap, list_lookup_insert_ne.
Qed.

Lemma ctx_ok_small :
  ctx_ok 8 4 [[0; 0]; [0; 0]]
    (mkCtx 4 20 2 (RingLive [SlotLive [0; 0]; SlotLive [0; 0]]) 2 1 0).
Proof.
  constructor; simpl; try done; try (unfold INT_MAX; lia).
  repeat constructor; unfold SUM_MAX; lia.
Qed.

Lemma X3_witness :
  ∃ s' f' log,
    filter_frame
      (mkCtx 4 20 2 (RingLive [SlotLive [0; 0]; SlotLive [0; 0]]) 2 1 0)
      (picture 8 4 200 90 60)
    = Ok (s', f', log) ∧ frame_count s' = 1.
Proof.
  destruct (X3_call_changes_one_row
              (mkCtx 4 20 2 (RingLive [SlotLive [0; 0]; SlotLive [0; 0]]) 2 1 0)
              [[0; 0]; [0; 0]] (picture 8 4 200 90 60))
    as (s' & f' & log & H1 & _ & _ & _ & _ & _ & H2 & _).
  - exact ctx_ok_small.
  - apply picture_ok; unfold byte; lia.
  - simpl. unfold INT_MAX. lia.
  - by exists s', f', log.
Defined.

(** X4: a call of filter_frame keeps the picture's width, height, line
    sizes and plane lengths, leaves every sample a byte, and never writes
    anything but 16 to luma and 128 to chroma: every luma sample of the
    result is the input's or 16, every chroma sample the input's or 128. *)
Theorem X4_call_only_paints (s : static_maskContext) (rows : list (list Z))
    (f : AVFrame) :
  ctx_ok (width f) (height f) rows s → frame_ok f → frame_count s < INT_MAX →
  ∃ s' f' log,
    filter_frame s f = Ok (s', f', log) ∧
    same_shape f f' ∧ frame_ok f' ∧
    (∀ i j, 0 ≤ i < width f → 0 ≤ j < height f →
            luma f' i j = luma f i j ∨ luma f' i j = 16) ∧
    (∀ ci cj, 0 ≤ ci < (width f + 1) / 2 → 0 ≤ cj < (height f + 1) / 2 →
              (cb f' ci cj = cb f ci cj ∨ cb f' ci cj = 128) ∧
              (cr f' ci cj = cr f ci cj ∨ cr f' ci cj = 128)).
Proof.
  intros Hctx Hf Hfc.
  destruct (filter_frame_spec s rows f Hctx Hf Hfc)
    as (s' & f' & log & Hcall & [_ _ Hok (Hs & Hl & Hc) _ _]).
  exists s', f', log. repeat (split; [done|]). split.
  - intros i j Hi Hj. rewrite (Hl i j Hi Hj).
    destruct (masked_at _ _ _ _ i j); [by right|by left].
  - intros ci cj Hi Hj. destruct (Hc ci cj Hi Hj) as [-> ->].
    destruct (chroma_of _ ci cj); split; (by right) || by left.
Qed.

Lemma X4_witness :
  ∃ s' f' log,
    filter_frame
      (mkCtx 4 20 2 (RingLive [SlotLive [0; 0]; SlotLive [0; 0]]) 2 1 0)
      (picture 8 4 200 90 60)
    = Ok (s', f', log) ∧ frame_ok f'.
Proof.
  destruct (X4_call_only_paints
              (mkCtx 4 20 2 (RingLive [SlotLive [0; 0]; SlotLive [0; 0]]) 2 1 0)
              [[0; 0]; [0; 0]] (picture 8 4 200 90 60))
    as (s' & f' & log & H1 & _ & H2 & _).
  - exact ctx_ok_small.
  - apply picture_ok; unfold byte; lia.
  - simpl. unfold INT_MAX. lia.
  - by exists s', f', log.
Defined.

(** * Threshold 0 *)

Lemma for_fuel_inv {S : Type} (P : S → Prop) (cond : Z → bool) (step : Z)
    (body : Z → S → outcome S) (fuel : nat) :
  (∀ v st st', P st → body v st = Ok st' → P st') →
  ∀ v st st', P st → for_fuel fuel v cond step body st = Ok st' → P st'.
Proof.
  intros Hbody. induction fuel as [|fuel IH]; intros v st st' HP Hrun; simpl in Hrun.
  - destruct (cond v); [done|]. by injection Hrun as <-.
  - destruct (cond v); [|by injection Hrun as <-].
    destruct (body v st) as [st1|e] eqn:E; [|done].
    cbn [mbind outcome_bind] in Hrun. eapply IH; [|done]. by eapply Hbody.
Qed.

Lemma lt_double_nonpos (n : Z) (thr : Q) :
  (thr <= 0)%Q → 0 ≤ n → lt_double n thr = false.
Proof.
  intros Hthr Hn. unfold lt_double. apply negb_false_iff, Qle_bool_iff.
  apply Qle_trans with 0%Q; [done|].
  change 0%Q with (inject_Z 0). by rewrite <- Zle_Qle.
Qed.

Lemma process_block_unmasked (sz : Z) (thr : Q) (bi y x : Z)
    (st st' : loop_state) :
  (thr <= 0)%Q → process_block sz thr bi y x st = Ok st' →
  l_frame st' = l_frame st ∧
  ∃ r, l_log st' = l_log st ++ [r] ∧ c_masked r = false ∧
       c_x r = x ∧ c_y r = y ∧
       block_sum sz (l_frame st) x y = Ok (c_sum r).
Proof.
  intros Hthr Hrun. unfold process_block in Hrun.
  destruct (block_sum sz (l_frame st) x y) as [sum|e] eqn:Esum; [|done].
  cbn [mbind outcome_bind] in Hrun.
  destruct (ring_read _ _ _) as [prev|e]; [|done].
  cbn [mbind outcome_bind] in Hrun.
  unfold abs_delta, c_abs in Hrun.
  destruct (_ =? INT_MIN); [done|]. cbn [mbind outcome_bind] in Hrun.
  unfold c_div in Hrun.
  destruct (Z.eqb_spec (norm_divisor sz) 0) as [|Hdiv]; [done|].
  cbn [mbind outcome_bind] in Hrun.
  rewrite lt_double_nonpos in Hrun; [|done|].
  - cbn [mbind outcome_bind] in Hrun.
    destruct (ring_write _ _ _ _) as [r'|e]; [|done].
    cbn [mbind outcome_bind] in Hrun. injection Hrun as <-. simpl.
    split; [done|]. eexists. split; [done|]. by simpl.
  - unfold norm_divisor in *.
    assert (0 ≤ Z.quot (sz * sz) 10) by (apply Z.quot_pos; nia).
    apply Z.quot_pos; [apply Z.abs_nonneg|lia].
Qed.

Lemma filter_frame_unmasked (s s' : static_maskContext) (f f' : AVFrame)
    (log : list comparison) :
  (threshold s <= 0)%Q → filter_frame s f = Ok (s', f', log) →
  f' = f ∧
  Forall (fun r => c_masked r = false ∧
                   block_sum (size s) f (c_x r) (c_y r) = Ok (c_sum r)) log.
Proof.
  intros Hthr Hrun. unfold filter_frame in Hrun.
  destruct (c_mod _ _) as [bi|e]; [|done]. cbn [mbind outcome_bind] in Hrun.
  destruct (for_fuel _ _ _ _ _ _) as [st|e] eqn:E; [|done].
  cbn [mbind outcome_bind] in Hrun.
  destruct (_ =? INT_MAX); [done|]. injection Hrun as <- <- <-.
  pose (P := fun st : loop_state =>
               l_frame st = f ∧
               Forall (fun r => c_masked r = false ∧
                                block_sum (size s) f (c_x r) (c_y r)
                                = Ok (c_sum r)) (l_log st)).
  apply (for_fuel_inv P) in E; [done| |by split].
  intros y st1 st2 HP Hrow. revert HP Hrow. apply (for_fuel_inv P).
  intros x st3 st4 [Hf Hlog] Hblock.
  destruct (process_block_unmasked _ _ _ _ _ _ _ Hthr Hblock)
    as (Hf' & r & Hl & Hm & Hx & Hy & Hsum).
  split; [congruence|]. rewrite Hl. apply Forall_app. split; [done|].
  apply Forall_singleton. rewrite Hx, Hy, <- Hf. done.
Qed.

(** X5: with a threshold of 0 or less (0 is the option's minimum) no block
    is ever classified static: filter_frame returns the picture exactly as
    it was delivered, and still records in the ring, for every cell, the
    sum of the block taken over that picture. *)
Theorem X5_threshold_zero_passes (s : static_maskContext)
    (rows : list (list Z)) (f : AVFrame) :
  ctx_ok (width f) (height f) rows s → frame_ok f → frame_count s < INT_MAX →
  (threshold s <= 0)%Q →
  ∃ s' log,
    filter_frame s f = Ok (s', f, log) ∧
    length log = block_count (size s) (width f) (height f) ∧
    ∀ (c : nat) r,
      log !! c = Some r →
      c_masked r = false ∧
      c_sum r = bsum (size s) f (c_x r) (c_y r) ∧
      ring_read (prev_sums s') (frame_count s mod frame_back s) (Z.of_nat c)
      = Ok (c_sum r).
Proof.
  intros Hctx Hf Hfc Hthr.
  destruct (filter_frame_spec s rows f Hctx Hf Hfc)
    as (s' & f' & log & Hcall & [-> _ _ _ Hblocks _]).
  destruct (filter_frame_unmasked _ _ _ _ _ Hthr Hcall) as [-> Hlog].
  exists (ctx_after s rows log), log. split; [done|]. split.
  { unfold block_count. by rewrite <- Hblocks, length_fmap. }
  intros c r Hr.
  destruct (Forall_lookup_1 _ _ _ _ Hlog Hr) as [Hm Hsum].
  pose proof (k_size _ _ _ _ Hctx) as Hsz.
  destruct (log_origin (size s) (width f) (height f) log ltac:(lia) Hblocks
              c r Hr) as [[Hx _] [Hy _]].
  rewrite block_sum_ok in Hsum by (try done; lia). injection Hsum as Hsum.
  split; [done|]. split; [done|].
  pose proof (buffer_index_lt _ _ _ _ Hctx) as Hb.
  replace (frame_count s mod frame_back s) with (Z.of_nat (buffer_index s)).
  - apply (ring_read_live _ _ (c_sum <$> log)).
    + simpl. rewrite list_lookup_fmap, list_lookup_insert_eq by done. done.
    + by rewrite list_lookup_fmap, Hr.
  - unfold buffer_index.
    pose proof (Z.mod_pos_bound (frame_count s) (frame_back s)
                  ltac:(destruct Hctx; lia)). lia.
Qed.

Lemma X5_witness :
  ∃ s' log,
    filter_frame
      (mkCtx 4 0 2 (RingLive [SlotLive [0; 0]; SlotLive [0; 0]]) 2 1 0)
      (picture 8 4 0 0 0)
    = Ok (s', picture 8 4 0 0 0, log) ∧ length log = 2%nat.
Proof.
  destruct (X5_threshold_zero_passes
              (mkCtx 4 0 2 (RingLive [SlotLive [0; 0]; SlotLive [0; 0]]) 2 1 0)
              [[0; 0]; [0; 0]] (picture 8 4 0 0 0))
    as (s' & log & H1 & H2 & _).
  - constructor; simpl; try done; try (unfold INT_MAX; lia).
    repeat constructor; unfold SUM_MAX; lia.
  - apply picture_ok; unfold byte; lia.
  - simpl. unfold INT_MAX. lia.
  - done.
  - by exists s', log.
Defined.

(** * The ring over a session, and teardown after it *)

(** X6: after config_input and any number of processed pictures the ring
    still has frame_back allocated rows, each of ceil(w/size) *
    ceil(h/size) sums, every sum between 0 and 765 * size * size; uninit
    then releases every row and the array. *)
Theorem X6_session_ring_shape (w h : Z) (s : static_maskContext)
    (fs : list AVFrame) :
  0 < w → 0 < h → 4 ≤ size s ≤ 600 → 1 ≤ frame_back s →
  frames_ok w h fs → Z.of_nat (length fs) ≤ INT_MAX →
  ∃ s1 s' outs rows s2,
    config_input grant_all w h s = Ok (0, s1) ∧
    run s1 fs = Ok (s', outs) ∧
    prev_sums s' = RingLive (SlotLive <$> rows) ∧
    Z.of_nat (length rows) = frame_back s ∧
    (∀ row, row ∈ rows →
            Z.of_nat (length row)
            = (w + size s - 1) / size s * ((h + size s - 1) / size s) ∧
            Forall (fun c => 0 ≤ c ≤ 765 * size s * size s) row) ∧
    uninit s' = Ok s2 ∧
    prev_sums s2 = RingFreed (replicate (length rows) SlotFreed).
Proof.
  intros Hw Hh Hsz Hback Hfs Hmax.
  destruct (session_spec w h s fs Hw Hh Hsz Hback Hfs Hmax)
    as (s1 & s' & outs & rows & Hcfg & Hrun & _ & Hctx & Hsz' & _ & HK & _).
  destruct Hctx as [_ _ _ Hring Hrows Hcells].
  exists s1, s', outs, rows. eexists. repeat (split; [done|]).
  split; [lia|]. split.
  - intros row Hrow.
    destruct (proj1 (Forall_forall _ _) Hcells row Hrow) as [Hlen Hrange].
    rewrite Hsz' in Hlen, Hrange. split; [|done].
    rewrite Hlen, block_count_grid by lia.
    pose proof (round_up_div w (size s) ltac:(lia)).
    pose proof (round_up_div h (size s) ltac:(lia)). nia.
  - rewrite (uninit_live s' rows Hring Hrows). done.
Qed.

Lemma X6_witness :
  ∃ s1 s' outs s2,
    config_input grant_all 10 5 (fresh 4 1 2) = Ok (0, s1) ∧
    run s1 (replicate 3%nat (picture 10 5 200 90 60)) = Ok (s', outs) ∧
    uninit s' = Ok s2.
Proof.
  destruct (X6_session_ring_shape 10 5 (fresh 4 1 2)
              (replicate 3%nat (picture 10 5 200 90 60)))
    as (s1 & s' & outs & rows & s2 & H1 & H2 & _ & _ & _ & H3 & _).
  - lia.
  - lia.
  - simpl; lia.
  - simpl; lia.
  - apply frames_ok_replicate; [|reflexivity..].
    apply picture_ok; unfold byte; lia.
  - simpl. unfold INT_MAX. lia.
  - by exists s1, s', outs, s2.
Defined.

(** * The grid of one call *)

Lemma lookup_product {A B C : Type} (g : A → B → C) (xs : list B) (x : B)
    (b : nat) (ys : list A) :
  xs !! b = Some x →
  ∀ (a : nat) (y : A),
    ys !! a = Some y →
    (y ← ys; g y <$> xs) !! (a * length xs + b)%nat = Some (g y x).
Proof.
  intros Hx. pose proof (lookup_lt_Some _ _ _ Hx) as Hb.
  induction ys as [|y0 ys IH]; intros a y Hy; [done|].
  rewrite bind_cons. destruct a as [|a]; simpl in Hy.
  - injection Hy as ->. replace (0 * length xs + b)%nat with b by lia.
    rewrite lookup_app_l by (rewrite length_fmap; lia).
    by rewrite list_lookup_fmap, Hx.
  - rewrite lookup_app_r by (rewrite length_fmap; lia).
    rewrite length_fmap.
    replace (Datatypes.S a * length xs + b - length xs)%nat
      with (a * length xs + b)%nat by lia.
    by apply IH.
Qed.

(** Block number c has origin (size * (c mod gw), size * (c / gw)). *)
Lemma lookup_blocks (sz w h : Z) (c : nat) :
  0 < sz → 0 < w →
  (c < block_count sz w h)%nat →
  blocks sz w h !! c
  = Some (sz * (Z.of_nat c / ((w + sz - 1) / sz)),
          sz * (Z.of_nat c mod ((w + sz - 1) / sz))).
Proof.
  intros Hsz Hw Hc. unfold block_count, blocks in *.
  rewrite (length_product (fun y x => (y, x))) in Hc.
  unfold origins in *. rewrite !length_steps in Hc.
  set (gw := Z.to_nat ((w + sz - 1) / sz)) in *.
  set (gh := Z.to_nat ((h + sz - 1) / sz)) in *.
  assert (0 < gw)%nat as Hgw.
  { destruct (decide (gw = O)) as [E|]; [|lia].
    rewrite E, Nat.mul_0_r in Hc. lia. }
  assert (Z.of_nat gw = (w + sz - 1) / sz) as Egw by lia.
  pose proof (Nat.div_mod_eq c gw) as Hdm.
  pose proof (Nat.mod_upper_bound c gw ltac:(lia)) as Hmod.
  assert (c / gw < gh)%nat as Hdiv by (apply Nat.Div0.div_lt_upper_bound; lia).
  pose proof (lookup_product (fun y x => (y, x)) (steps gw 0 sz)
             (0 + sz * Z.of_nat (c mod gw)) (c mod gw) (steps gh 0 sz)
             (lookup_steps gw 0 sz (c mod gw) Hmod)
             (c / gw)%nat (0 + sz * Z.of_nat (c / gw))
             (lookup_steps gh 0 sz (c / gw) Hdiv)) as E.
  rewrite length_steps in E.
  replace (c / gw * gw + c mod gw)%nat with c in E by lia.
  rewrite E. by rewrite !Z.add_0_l, Nat2Z.inj_div, Nat2Z.inj_mod, Egw.
Qed.

(** X7: one call makes exactly ceil(w/size) * ceil(h/size) comparisons,
    and numbers the blocks row by row: the block of origin (x, y), both
    multiples of size inside the picture, uses cell
    (y / size) * ceil(w/size) + x / size of the ring row. *)
Theorem X7_cells_row_major (s : static_maskContext) (rows : list (list Z))
    (f : AVFrame) :
  ctx_ok (width f) (height f) rows s → frame_ok f → frame_count s < INT_MAX →
  ∃ s' f' log,
    filter_frame s f = Ok (s', f', log) ∧
    Z.of_nat (length log)
    = (width f + size s - 1) / size s * ((height f + size s - 1) / size s) ∧
    ∀ (c : nat) r,
      log !! c = Some r →
      c_cell r = Z.of_nat c ∧
      (0 ≤ c_x r < width f ∧ c_x r mod size s = 0) ∧
      (0 ≤ c_y r < height f ∧ c_y r mod size s = 0) ∧
      c_cell r
      = c_y r / size s * ((width f + size s - 1) / size s) + c_x r / size s.
Proof.
  intros Hctx Hf Hfc.
  pose proof (k_size _ _ _ _ Hctx) as Hsz.
  pose proof (ok_w f Hf) as Hw. pose proof (ok_h f Hf) as Hh.
  destruct (filter_frame_spec s rows f Hctx Hf Hfc)
    as (s' & f' & log & Hcall & [_ _ _ _ Hblocks (cells0 & _ & Hent)]).
  exists s', f', log. split; [done|].
  assert (length log = block_count (size s) (width f) (height f)) as Hlen.
  { unfold block_count. by rewrite <- Hblocks, length_fmap. }
  split.
  { rewrite Hlen, block_count_grid by lia.
    pose proof (round_up_div (width f) (size s) ltac:(lia)).
    pose proof (round_up_div (height f) (size s) ltac:(lia)). nia. }
  intros c r Hr.
  destruct (Hent c r Hr) as [Hcell _ _ _ _ _ _].
  pose proof (log_origin (size s) (width f) (height f) log ltac:(lia) Hblocks
                c r Hr) as [Hx Hy].
  repeat (split; [done|]).
  pose proof (log_block _ _ _ _ Hblocks c r Hr) as Hb.
  rewrite lookup_blocks in Hb
    by (try lia; rewrite <- Hlen; by eapply lookup_lt_Some).
  injection Hb as Ey Ex.
  set (gw := (width f + size s - 1) / size s) in *.
  assert (0 < gw).
  { pose proof (round_up_div (width f) (size s) ltac:(lia)). unfold gw. nia. }
  rewrite <- Ex, <- Ey, Hcell.
  rewrite !(Z.mul_comm (size s)), !Z.div_mul by lia.
  pose proof (Z.div_mod (Z.of_nat c) gw ltac:(lia)). lia.
Qed.

Lemma X7_witness :
  ∃ s' f' log,
    filter_frame
      (mkCtx 4 20 2 (RingLive [SlotLive [0; 0]; SlotLive [0; 0]]) 2 1 0)
      (picture 8 4 200 90 60)
    = Ok (s', f', log) ∧ Z.of_nat (length log) = 2.
Proof.
  destruct (X7_cells_row_major
              (mkCtx 4 20 2 (RingLive [SlotLive [0; 0]; SlotLive [0; 0]]) 2 1 0)
              [[0; 0]; [0; 0]] (picture 8 4 200 90 60))
    as (s' & f' & log & H1 & H2 & _).
  - exact ctx_ok_small.
  - apply picture_ok; unfold byte; lia.
  - simpl. unfold INT_MAX. lia.
  - by exists s', f', log.
Defined.

(** X8: the blocks of one call tile the picture: every pixel lies in the
    clipped extent of exactly one block that the call compares. *)
Theorem X8_blocks_tile_picture (s : static_maskContext) (rows : list (list Z))
    (f : AVFrame) :
  ctx_ok (width f) (height f) rows s → frame_ok f → frame_count s < INT_MAX →
  ∃ s' f' log,
    filter_frame s f = Ok (s', f', log) ∧
    ∀ i j, 0 ≤ i < width f → 0 ≤ j < height f →
      ∃ (c : nat) r,
        log !! c = Some r ∧
        covers (size s) (width f) (height f) (c_x r) (c_y r) i j = true ∧
        ∀ (c' : nat) r',
          log !! c' = Some r' →
          covers (size s) (width f) (height f) (c_x r') (c_y r') i j = true →
          c' = c.
Proof.
  intros Hctx Hf Hfc.
  pose proof (k_size _ _ _ _ Hctx) as Hsz.
  destruct (filter_frame_spec s rows f Hctx Hf Hfc)
    as (s' & f' & log & Hcall & [_ _ _ _ Hblocks _]).
  exists s', f', log. split; [done|]. intros i j Hi Hj.
  destruct (pixel_in_block (size s) (width f) (height f) log ltac:(lia)
              Hblocks i j Hi Hj) as (c & r & Hr & Hcov).
  exists c, r. repeat (split; [done|]). intros c' r' Hr' Hcov'.
  apply covers_true in Hcov as [[Hx _] [Hy _]].
  apply covers_true in Hcov' as [[Hx' _] [Hy' _]].
  destruct (log_origin (size s) (width f) (height f) log ltac:(lia) Hblocks
              c r Hr) as [[_ Mx] [_ My]].
  destruct (log_origin (size s) (width f) (height f) log ltac:(lia) Hblocks
              c' r' Hr') as [[_ Mx'] [_ My']].
  apply (log_same_origin (size s) (width f) (height f) log ltac:(lia) Hblocks
           c' c r' r Hr' Hr).
  - by apply (origin_unique (size s) _ _ i); [lia|..].
  - by apply (origin_unique (size s) _ _ j); [lia|..].
Qed.

Lemma X8_witness :
  ∃ s' f' log,
    filter_frame
      (mkCtx 4 20 2 (RingLive [SlotLive [0; 0]; SlotLive [0; 0]]) 2 1 0)
      (picture 8 4 200 90 60)
    = Ok (s', f', log).
Proof.
  destruct (X8_blocks_tile_picture
              (mkCtx 4 20 2 (RingLive [SlotLive [0; 0]; SlotLive [0; 0]]) 2 1 0)
              [[0; 0]; [0; 0]] (picture 8 4 200 90 60))
    as (s' & f' & log & H1 & _).
  - exact ctx_ok_small.
  - apply picture_ok; unfold byte; lia.
  - simpl. unfold INT_MAX. lia.
  - by exists s', f', log.
Defined.

(** * Pictures that do not fit the context *)

Lemma run_blocks_cat {S : Type} (body : Z → Z → S → outcome S)
    (bs bs' : list (Z * Z)) (st : S) :
  run_blocks body (bs ++ bs') st
  = (st' ← run_blocks body bs st; run_blocks body bs' st').
Proof. apply run_blocks_app. Qed.

(** X9: filter_frame does not check the picture against the grid that
    config_input allocated: for a picture with more blocks than a ring row
    has cells, the call ends in an access to
    prev_sums[..][range_counter] past the end of the row. *)
Theorem X9_larger_picture_overruns (w h : Z) (s : static_maskContext)
    (rows : list (list Z)) (f : AVFrame) :
  ctx_ok w h rows s → frame_ok f →
  (block_count (size s) w h < block_count (size s) (width f) (height f))%nat →
  filter_frame s f = Fault OutOfBounds.
Proof.
  intros Hctx Hf Hmore.
  pose proof (buffer_index_lt _ _ _ _ Hctx) as Hb.
  destruct Hctx as [Hsz Hback Hcount Hring Hrows Hcells].
  destruct (lookup_lt_is_Some_2 rows (buffer_index s) Hb) as [cells0 Hrow].
  pose proof (Forall_lookup_1 _ _ _ _ Hcells Hrow) as [Hlen0 Hrange0].
  pose proof (ok_w f Hf) as Hw. pose proof (ok_h f Hf) as Hh.
  set (N := block_count (size s) w h) in *.
  set (bl := blocks (size s) (width f) (height f)).
  assert (N < length bl)%nat as HN by done.
  destruct (lookup_lt_is_Some_2 bl N HN) as [[y x] Hyx].
  assert (bl = take N bl ++ (y, x) :: drop (Datatypes.S N) bl) as Hsplit.
  { by rewrite take_drop_middle. }
  assert (0 ≤ x < width f ∧ 0 ≤ y < height f) as [Hx Hy].
  { apply list_elem_of_lookup_2, elem_of_blocks in Hyx as [Hy Hx].
    apply elem_of_origins in Hx, Hy; lia. }
  unfold filter_frame, c_mod.
  destruct (Z.eqb_spec (frame_back s) 0); [lia|]. next.
  rewrite Z.rem_mod_nonneg by lia.
  rewrite block_loops_blocks by lia. fold bl. rewrite Hsplit, run_blocks_cat.
  replace (frame_count s mod frame_back s) with (Z.of_nat (buffer_index s))
    by (unfold buffer_index;
        pose proof (Z.mod_pos_bound (frame_count s) (frame_back s)); lia).
  rewrite Hring.
  destruct (run_blocks_spec (size s) (threshold s) f (SlotLive <$> rows)
              (buffer_index s) cells0 Hsz
              ltac:(by rewrite list_lookup_fmap, Hrow) Hrange0
              (take N bl) []
              (mkLoop (RingLive (SlotLive <$> rows)) f 0 []))
    as (st & -> & [Hrc Horig Hring' Hok Hp Hent]).
  - apply block_inv_start; [done|]. by rewrite list_lookup_fmap, Hrow.
  - intros y' x' Hin. apply elem_of_take in Hin as (k & Hin & _).
    apply list_elem_of_lookup_2, elem_of_blocks in Hin as [Hy' Hx'].
    apply elem_of_origins in Hx', Hy'; lia.
  - rewrite length_take. simpl. lia.
  - next. cbn [run_blocks]. unfold process_block.
    rewrite block_sum_ok by (try done; lia). next.
    simpl in Hrc, Horig, Hring'. rewrite Hring', Hrc.
    assert (length (l_log st) = N) as Hlog.
    { rewrite <- (length_fmap (fun r => (c_y r, c_x r))), Horig, length_take.
      lia. }
    unfold ring_read.
    destruct (Z.ltb_spec (Z.of_nat (buffer_index s)) 0); [lia|].
    rewrite Nat2Z.id, list_lookup_insert_eq by (by rewrite length_fmap).
    unfold load. destruct (Z.ltb_spec (Z.of_nat (length (take N bl))) 0); [lia|].
    rewrite Nat2Z.id, length_take, Nat.min_l by lia.
    rewrite lookup_ge_None_2; [done|].
    rewrite length_app, length_fmap, length_drop. lia.
Qed.

Lemma X9_witness :
  filter_frame
    (mkCtx 4 20 2 (RingLive [SlotLive [0; 0]; SlotLive [0; 0]]) 2 1 0)
    (picture 12 4 200 90 60)
  = Fault OutOfBounds.
Proof.
  apply (X9_larger_picture_overruns 8 4 _ [[0; 0]; [0; 0]]).
  - exact ctx_ok_small.
  - apply picture_ok; unfold byte; lia.
  - vm_compute. lia.
Defined.

(** * Pictures without a chroma plane *)

Lemma span_first (sz bound from : Z) :
  0 < sz → from < bound → ∃ rest, span sz bound from = from :: rest.
Proof.
  intros Hsz Hb. unfold span.
  destruct (Z.to_nat (Z.min (from + sz) bound - from)) as [|n] eqn:E; [lia|].
  simpl. by eexists.
Qed.

Lemma load_fault (buf : list Z) (idx : Z) (e : fault) :
  load buf idx = Fault e → e = OutOfBounds.
Proof.
  unfold load. destruct (idx <? 0); [by intros [= <-]|].
  destruct (buf !! Z.to_nat idx); [done|]. by intros [= <-].
Qed.

(** X10: filter_frame reads plane 1 and plane 2 of every pixel without
    looking at the pixel format.  If one of these planes holds no bytes,
    the sum of the first block reads past the end of that plane, and so
    does the call. *)
Theorem X10_missing_chroma_plane (s : static_maskContext) (f : AVFrame) :
  0 < size s → frame_back s ≠ 0 → 0 < width f → 0 < height f →
  data1 f = [] ∨ data2 f = [] →
  block_sum (size s) f 0 0 = Fault OutOfBounds ∧
  filter_frame s f = Fault OutOfBounds.
Proof.
  intros Hsz Hback Hw Hh Hempty.
  assert (block_sum (size s) f 0 0 = Fault OutOfBounds) as Hsum.
  { unfold block_sum. rewrite span_loop by lia.
    destruct (span_first (size s) (height f) 0) as [rows ->]; [lia..|].
    cbn [run_over]. rewrite span_loop by lia.
    destruct (span_first (size s) (width f) 0) as [cols ->]; [lia..|].
    cbn [run_over]. unfold sum_pixel.
    replace (Z.quot 0 2 * linesize1 f + Z.quot 0 2) with 0 by done.
    replace (Z.quot 0 2 * linesize2 f + Z.quot 0 2) with 0 by done.
    destruct (load (data0 f) (0 * linesize0 f + 0)) as [v0|e] eqn:E0.
    - next. destruct Hempty as [-> | ->]; [done|].
      destruct (load (data1 f) 0) as [v1|e] eqn:E1; [done|].
      by rewrite (load_fault _ _ _ E1).
    - by rewrite (load_fault _ _ _ E0). }
  split; [done|].
  destruct (blocks_first (size s) (width f) (height f)) as [rest Hblocks];
    [lia..|].
  unfold filter_frame, c_mod.
  destruct (Z.eqb_spec (frame_back s) 0); [done|]. next.
  rewrite block_loops_blocks by lia. rewrite Hblocks. cbn [run_blocks].
  unfold process_block. cbn [l_frame]. by rewrite Hsum.
Qed.

Lemma X10_witness :
  filter_frame (fresh 20 20 1)
    (mkFrame 4 2 (replicate 24%nat 7) [] [] 12 0 0)
  = Fault OutOfBounds.
Proof.
  apply (X10_missing_chroma_plane (fresh 20 20 1)
           (mkFrame 4 2 (replicate 24%nat 7) [] [] 12 0 0)).
  - simpl; lia.
  - simpl; lia.
  - simpl; lia.
  - simpl; lia.
  - by left.
Defined.

(** * The first frame_back calls *)

(** X11: in the first frame_back calls of a session the comparison reads
    the zero that config_input stored, so the delta of a block is its own
    sum: the block is painted exactly when sum / (size * size / 10) is
    below the threshold, whatever the picture before it was.  With an even
    block size that sum is the one of the delivered picture. *)
Theorem X11_first_calls_compare_with_zero (w h : Z) (s : static_maskContext)
    (fs : list AVFrame) :
  0 < w → 0 < h → 4 ≤ size s ≤ 600 → 1 ≤ frame_back s →
  frames_ok w h fs → Z.of_nat (length fs) ≤ INT_MAX →
  ∃ s1 s' outs,
    config_input grant_all w h s = Ok (0, s1) ∧
    run s1 fs = Ok (s', outs) ∧ length outs = length fs ∧
    ∀ (n c : nat) f out r,
      fs !! n = Some f → outs !! n = Some out → out.2 !! c = Some r →
      Z.of_nat n < frame_back s →
      c_prev r = 0 ∧ c_delta r = c_sum r ∧
      c_masked r
      = lt_double (c_sum r / (size s * size s / 10)) (threshold s) ∧
      (Z.even (size s) = true →
       c_sum r = bsum (size s) f (c_x r) (c_y r)).
Proof.
  intros Hw Hh Hsz Hback Hfs Hmax.
  destruct (session_spec w h s fs Hw Hh Hsz Hback Hfs Hmax)
    as (s1 & s' & outs & rows' & Hcfg & Hrun & Hlen & _ & _ & _ & _ & _ & _
        & Hsteps).
  exists s1, s', outs. repeat (split; [done|]).
  intros n c f out r Hf Hout Hr Hn.
  destruct (steps_lookback w h (size s) (threshold s)
              (Z.to_nat (frame_back s)) fs outs ltac:(lia) Hlen Hsteps
              n c out r Hout Hr) as (_ & _ & Hlt).
  specialize (Hlt ltac:(lia)).
  destruct (Hsteps n f out Hf Hout)
    as (sn & rows & sn' & _ & Hszn & Hthr & _ & _ & _ & _ & Hok).
  pose proof Hok as [_ _ _ _ _ (cells0 & _ & Hent)].
  destruct (Hent c r Hr) as [_ _ _ Hrange Hdelta Hnorm Hmasked].
  rewrite Hszn, Hthr in *.
  assert (c_delta r = c_sum r) as Hd.
  { rewrite Hdelta, Hlt, Z.sub_0_r. apply Z.abs_eq. lia. }
  split; [done|]. split; [done|]. split; [by rewrite Hmasked, Hnorm, Hd|].
  intros Heven.
  rewrite <- Hszn.
  apply (even_sum sn rows f sn' out.1 out.2 c r Hok); [lia| |done].
  by rewrite Hszn.
Qed.

Lemma X11_witness :
  ∃ s1 s' outs,
    config_input grant_all 8 4 (fresh 4 1 2) = Ok (0, s1) ∧
    run s1 (replicate 3%nat (picture 8 4 200 90 60)) = Ok (s', outs) ∧
    length outs = 3%nat.
Proof.
  destruct (X11_first_calls_compare_with_zero 8 4 (fresh 4 1 2)
              (replicate 3%nat (picture 8 4 200 90 60)))
    as (s1 & s' & outs & H1 & H2 & H3 & _).
  - lia.
  - lia.
  - simpl; lia.
  - simpl; lia.
  - apply frames_ok_replicate; [|reflexivity..].
    apply picture_ok; unfold byte; lia.
  - simpl. unfold INT_MAX. lia.
  - exists s1, s', outs. simpl in H3. done.
Defined.

(** * Raising the threshold *)

Lemma lt_double_mono (n m : Z) (t t' : Q) :
  n ≤ m → (t <= t')%Q → lt_double m t = true → lt_double n t' = true.
Proof.
  unfold lt_double. intros Hnm Htt H.
  apply negb_true_iff, not_true_iff_false in H.
  apply negb_true_iff, not_true_iff_false. intros Hle. apply H.
  apply Qle_bool_iff in Hle. apply Qle_bool_iff.
  apply Qle_trans with t'; [done|]. apply Qle_trans with (inject_Z n); [done|].
  by rewrite <- Zle_Qle.
Qed.

(** X12: with an even block size the threshold decides only which blocks
    are painted: the same call made with a larger threshold compares the
    same sums, leaves the same ring, and paints every block that the
    smaller threshold paints. *)
Theorem X12_larger_threshold_paints_more (s : static_maskContext)
    (rows : list (list Z)) (f : AVFrame) (t2 : Q) :
  ctx_ok (width f) (height f) rows s → frame_ok f → frame_count s < INT_MAX →
  Z.even (size s) = true → (threshold s <= t2)%Q →
  ∃ s' f' log s2' f2' log2,
    filter_frame s f = Ok (s', f', log) ∧
    filter_frame (mkCtx (size s) t2 (frame_back s) (prev_sums s)
                        (prev_width s) (prev_height s) (frame_count s)) f
    = Ok (s2', f2', log2) ∧
    prev_sums s2' = prev_sums s' ∧ length log2 = length log ∧
    ∀ (c : nat) r r2,
      log !! c = Some r → log2 !! c = Some r2 →
      c_sum r2 = c_sum r ∧ c_norm r2 = c_norm r ∧
      (c_masked r = true → c_masked r2 = true).
Proof.
  intros Hctx Hf Hfc Heven Hle.
  set (s2 := mkCtx (size s) t2 (frame_back s) (prev_sums s)
                   (prev_width s) (prev_height s) (frame_count s)).
  assert (ctx_ok (width f) (height f) rows s2) as Hctx2.
  { by destruct Hctx. }
  pose proof (k_size _ _ _ _ Hctx) as Hsz.
  destruct (filter_frame_spec s rows f Hctx Hf Hfc)
    as (s' & f' & log & Hcall & Hok).
  destruct (filter_frame_spec s2 rows f Hctx2 Hf Hfc)
    as (s2' & f2' & log2 & Hcall2 & Hok2).
  exists s', f', log, s2', f2', log2. repeat (split; [done|]).
  pose proof Hok as [Hs' _ _ _ Hblocks (cells0 & Hrow & Hent)].
  pose proof Hok2 as [Hs2' _ _ _ Hblocks2 (cells2 & Hrow2 & Hent2)].
  change (buffer_index s2) with (buffer_index s) in Hrow2.
  change (size s2) with (size s) in *.
  change (threshold s2) with t2 in *.
  assert (cells2 = cells0) as -> by congruence.
  assert (∀ (c : nat) r r2, log !! c = Some r → log2 !! c = Some r2 →
            c_sum r2 = c_sum r ∧ c_norm r2 = c_norm r ∧
            (c_masked r = true → c_masked r2 = true)) as Hsame.
  { intros c r r2 Hr Hr2.
    pose proof (log_block _ _ _ _ Hblocks c r Hr) as Hb.
    pose proof (log_block _ _ _ _ Hblocks2 c r2 Hr2) as Hb2.
    assert (c_y r2 = c_y r ∧ c_x r2 = c_x r) as [Ey Ex].
    { rewrite Hb in Hb2. by injection Hb2. }
    pose proof (even_sum s rows f s' f' log c r Hok ltac:(lia) Heven Hr) as Hsum.
    pose proof (even_sum s2 rows f s2' f2' log2 c r2 Hok2 ltac:(simpl; lia)
                  Heven Hr2) as Hsum2.
    change (size s2) with (size s) in Hsum2. rewrite Ex, Ey in Hsum2.
    destruct (Hent c r Hr) as [_ Hprev _ _ Hdelta Hnorm Hmasked].
    destruct (Hent2 c r2 Hr2) as [_ Hprev2 _ _ Hdelta2 Hnorm2 Hmasked2].
    assert (c_prev r2 = c_prev r) as Hp by congruence.
    assert (c_sum r2 = c_sum r) as Hsm by congruence.
    assert (c_norm r2 = c_norm r) as Hn.
    { by rewrite Hnorm2, Hdelta2, Hp, Hsm, Hnorm, Hdelta. }
    repeat (split; [done|]). rewrite Hmasked, Hmasked2, Hn.
    by apply lt_double_mono. }
  assert (length log2 = length log) as Hlen.
  { by rewrite <- (length_fmap (fun r => (c_y r, c_x r)) log2), Hblocks2,
      <- Hblocks, length_fmap. }
  split; [|split; [done|done]].
  rewrite Hs', Hs2'. unfold ctx_after. simpl.
  change (buffer_index s2) with (buffer_index s).
  do 3 f_equal. apply list_eq. intros c. rewrite !list_lookup_fmap.
  destruct (log !! c) as [r|] eqn:Hr.
  - destruct (lookup_lt_is_Some_2 log2 c) as [r2 Hr2].
    { rewrite Hlen. by eapply lookup_lt_Some. }
    rewrite Hr2. simpl. f_equal. by destruct (Hsame c r r2 Hr Hr2).
  - rewrite (lookup_ge_None_2 log2); [done|].
    rewrite Hlen. by apply lookup_ge_None.
Qed.

Lemma X12_witness :
  ∃ s' f' log s2' f2' log2,
    filter_frame
      (mkCtx 4 20 2 (RingLive [SlotLive [0; 0]; SlotLive [0; 0]]) 2 1 0)
      (picture 8 4 200 90 60)
    = Ok (s', f', log) ∧
    filter_frame
      (mkCtx 4 1000 2 (RingLive [SlotLive [0; 0]; SlotLive [0; 0]]) 2 1 0)
      (picture 8 4 200 90 60)
    = Ok (s2', f2', log2) ∧
    prev_sums s2' = prev_sums s'.
Proof.
  destruct (X12_larger_threshold_paints_more
              (mkCtx 4 20 2 (RingLive [SlotLive [0; 0]; SlotLive [0; 0]]) 2 1 0)
              [[0; 0]; [0; 0]] (picture 8 4 200 90 60) 1000)
    as (s' & f' & log & s2' & f2' & log2 & H1 & H2 & H3 & _).
  - exact ctx_ok_small.
  - apply picture_ok; unfold byte; lia.
  - simpl. unfold INT_MAX. lia.
  - reflexivity.
  - done.
  - by exists s', f', log, s2', f2', log2.
Defined.

(** * Clipped blocks *)

Lemma length_span_clipped (sz bound from : Z) :
  Z.of_nat (length (span sz bound from))
  = Z.max 0 (Z.min (from + sz) bound - from).
Proof. unfold span. rewrite length_steps. lia. Qed.

Lemma bsum_bounds_clipped (sz : Z) (f : AVFrame) (x y : Z) :
  frame_ok f → 0 ≤ x < width f → 0 ≤ y < height f → 0 < sz →
  0 ≤ bsum sz f x y
  ≤ 765 * ((Z.min (x + sz) (width f) - x) * (Z.min (y + sz) (height f) - y)).
Proof.
  intros Hok Hx Hy Hsz. unfold bsum.
  pose proof (length_span_clipped sz (width f) x) as Hlw.
  pose proof (length_span_clipped sz (height f) y) as Hlh.
  set (cw := Z.min (x + sz) (width f) - x) in *.
  set (ch := Z.min (y + sz) (height f) - y) in *.
  pose proof (zsum_bounds (765 * cw)
    (fun j => zsum (fun i => pix f j i) (span sz (width f) x))
    (span sz (height f) y)) as Hb.
  destruct Hb as [? ?]; [|nia].
  intros j _.
  pose proof (zsum_bounds 765 (fun i => pix f j i) (span sz (width f) x)) as Hr.
  destruct Hr as [? ?]; [|nia].
  intros i _. by apply pix_bounds.
Qed.

(** X13: the sum of a block clipped at the right or bottom edge counts
    only the p pixels inside the picture, so sum, previous sum and delta
    are at most 765 * p, while the divisor stays size * size / 10: an edge
    block with 765 * p / (size * size / 10) below the threshold is painted
    in every call, whatever the pictures show. *)
Theorem X13_small_edge_blocks_always_painted (w h : Z)
    (s : static_maskContext) (fs : list AVFrame) :
  0 < w → 0 < h → 4 ≤ size s ≤ 600 → 1 ≤ frame_back s →
  frames_ok w h fs → Z.of_nat (length fs) ≤ INT_MAX →
  ∃ s1 s' outs,
    config_input grant_all w h s = Ok (0, s1) ∧
    run s1 fs = Ok (s', outs) ∧ length outs = length fs ∧
    ∀ (n c : nat) out r,
      outs !! n = Some out → out.2 !! c = Some r →
      let p := (Z.min (c_x r + size s) w - c_x r)
               * (Z.min (c_y r + size s) h - c_y r) in
      0 < p ≤ size s * size s ∧
      0 ≤ c_sum r ≤ 765 * p ∧ 0 ≤ c_prev r ≤ 765 * p ∧
      c_delta r ≤ 765 * p ∧
      (lt_double (765 * p / (size s * size s / 10)) (threshold s) = true →
       c_masked r = true).
Proof.
  intros Hw Hh Hsz Hback Hfs Hmax.
  destruct (session_spec w h s fs Hw Hh Hsz Hback Hfs Hmax)
    as (s1 & s' & outs & rows' & Hcfg & Hrun & Hlen & _ & _ & _ & _ & _ & _
        & Hsteps).
  exists s1, s', outs. repeat (split; [done|]).
  assert (∀ (n c : nat) out r,
            outs !! n = Some out → out.2 !! c = Some r →
            (0 ≤ c_x r < w ∧ 0 ≤ c_y r < h) ∧
            0 ≤ c_sum r
            ≤ 765 * ((Z.min (c_x r + size s) w - c_x r)
                     * (Z.min (c_y r + size s) h - c_y r))) as Hsums.
  { intros n c out r Hout Hr.
    assert (is_Some (fs !! n)) as [f Hf].
    { apply lookup_lt_is_Some. rewrite <- Hlen. by eapply lookup_lt_Some. }
    pose proof (Forall_lookup_1 _ _ _ _ Hfs Hf) as (_ & Hfw & Hfh).
    simpl in Hfw, Hfh.
    destruct (Hsteps n f out Hf Hout)
      as (sn & rows & sn' & _ & Hszn & _ & _ & _ & _ & _ & Hok).
    destruct Hok as [_ _ _ _ Hblocks (cells0 & _ & Hent)].
    destruct (Hent c r Hr) as [_ _ (fk & Hp & Hfk & Hsum) _ _ _ _].
    rewrite Hszn, Hfw, Hfh in *.
    destruct (log_origin (size s) w h out.2 ltac:(lia) Hblocks c r Hr)
      as [[Hx _] [Hy _]].
    destruct Hp as ((Hwk & Hhk & _) & _). rewrite Hfw in Hwk. rewrite Hfh in Hhk.
    split; [done|]. rewrite Hsum, <- Hwk, <- Hhk.
    apply bsum_bounds_clipped; try done; lia. }
  intros n c out r Hout Hr p.
  destruct (Hsums n c out r Hout Hr) as [[Hx Hy] Hsum]. fold p in Hsum.
  assert (0 < p ≤ size s * size s) as Hp by (unfold p; nia).
  assert (0 ≤ c_prev r ≤ 765 * p) as Hprev.
  { destruct (steps_lookback w h (size s) (threshold s)
                (Z.to_nat (frame_back s)) fs outs ltac:(lia) Hlen Hsteps
                n c out r Hout Hr) as (_ & Hge & Hlt).
    destruct (decide (Z.to_nat (frame_back s) ≤ n)%nat) as [HK|HK].
    - destruct (Hge HK) as (out0 & r0 & Hout0 & Hr0 & _ & ->).
      destruct (Hsums _ c out0 r0 Hout0 Hr0) as [_ Hsum0].
      pose proof (steps_cover w h (size s) (threshold s)
                    (Z.to_nat (frame_back s)) fs outs Hlen Hfs Hsteps) as Hcov.
      pose proof (log_block _ _ _ _ (Hcov _ _ Hout) c r Hr) as Hb.
      pose proof (log_block _ _ _ _ (Hcov _ _ Hout0) c r0 Hr0) as Hb0.
      rewrite Hb in Hb0. injection Hb0 as Ey Ex.
      rewrite <- Ex, <- Ey in Hsum0. done.
    - rewrite Hlt by lia. lia. }
  assert (is_Some (fs !! n)) as [f Hf].
  { apply lookup_lt_is_Some. rewrite <- Hlen. by eapply lookup_lt_Some. }
  destruct (Hsteps n f out Hf Hout)
    as (sn & rows & sn' & _ & Hszn & Hthr & _ & _ & _ & _ & Hok).
  destruct Hok as [_ _ _ _ _ (cells0 & _ & Hent)].
  destruct (Hent c r Hr) as [_ _ _ _ Hdelta Hnorm Hmasked].
  rewrite Hszn, Hthr in *.
  assert (c_delta r ≤ 765 * p) as Hd by lia.
  repeat (split; [done|]).
  intros Hlt. rewrite Hmasked.
  apply (lt_double_mono _ (765 * p / (size s * size s / 10)) (threshold s));
    [|apply Qle_refl|done].
  rewrite Hnorm. apply Z.div_le_mono; [|done].
  pose proof (norm_divisor_pos (size s) ltac:(lia)) as Hpos.
  rewrite norm_divisor_div in Hpos by lia. done.
Qed.

Lemma X13_witness :
  ∃ s1 s' outs,
    config_input grant_all 10 5 (fresh 4 1 2) = Ok (0, s1) ∧
    run s1 (replicate 3%nat (picture 10 5 200 90 60)) = Ok (s', outs) ∧
    length outs = 3%nat.
Proof.
  destruct (X13_small_edge_blocks_always_painted 10 5 (fresh 4 1 2)
              (replicate 3%nat (picture 10 5 200 90 60)))
    as (s1 & s' & outs & H1 & H2 & H3 & _).
  - lia.
  - lia.
  - simpl; lia.
  - simpl; lia.
  - apply frames_ok_replicate; [|reflexivity..].
    apply picture_ok; unfold byte; lia.
  - simpl. unfold INT_MAX. lia.
  - exists s1, s', outs. simpl in H3. done.
Defined.

(** * A ring that cannot be read *)

(** X14: filter_frame does not test prev_sums.  On a context whose ring
    was never allocated (or whose allocation was refused) the first
    comparison dereferences NULL, and on a context that uninit has torn
    down it reads released memory. *)
Theorem X14_ring_not_allocated (s : static_maskContext) (f : AVFrame) :
  1 ≤ size s ≤ 600 → frame_back s ≠ 0 → frame_ok f →
  (prev_sums s = RingNull → filter_frame s f = Fault NullDereference) ∧
  (∀ slots, prev_sums s = RingFreed slots →
            filter_frame s f = Fault UseAfterFree).
Proof.
  intros Hsz Hback Hf.
  pose proof (ok_w f Hf) as Hw. pose proof (ok_h f Hf) as Hh.
  destruct (blocks_first (size s) (width f) (height f)) as [rest Hblocks];
    [lia..|].
  assert (∀ e, (∀ bi rc, ring_read (prev_sums s) bi rc = Fault e) →
               filter_frame s f = Fault e) as Hfault.
  { intros e Hread. unfold filter_frame, c_mod.
    destruct (Z.eqb_spec (frame_back s) 0); [done|]. next.
    rewrite block_loops_blocks by lia. rewrite Hblocks. cbn [run_blocks].
    unfold process_block. cbn [l_frame l_ring range_counter].
    rewrite block_sum_ok by (try done; lia). next. by rewrite Hread. }
  split.
  - intros Hnull. apply Hfault. intros bi rc. by rewrite Hnull.
  - intros slots Hfreed. apply Hfault. intros bi rc. by rewrite Hfreed.
Qed.

Lemma X14_witness :
  filter_frame (fresh 4 20 1) (picture 8 4 200 90 60) = Fault NullDereference.
Proof.
  destruct (X14_ring_not_allocated (fresh 4 20 1) (picture 8 4 200 90 60))
    as [H _].
  - simpl; lia.
  - simpl; lia.
  - apply picture_ok; unfold byte; lia.
  - by apply H.
Defined.

(** * The frame counter *)

(** X15: frame_count is an int that every call increments and nothing
    resets but config_input: the call made with frame_count = INT_MAX
    overflows the counter instead of returning. *)
Theorem X15_frame_count_overflows (s : static_maskContext)
    (rows : list (list Z)) (f : AVFrame) :
  ctx_ok (width f) (height f) rows s → frame_ok f →
  frame_back s ≤ 100 → frame_count s = INT_MAX →
  filter_frame s f = Fault SignedOverflow.
Proof.
  intros Hctx Hf Hback Hfc.
  pose proof (k_back _ _ _ _ Hctx) as Hback1.
  set (s0 := mkCtx (size s) (threshold s) (frame_back s) (prev_sums s)
                   (prev_width s) (prev_height s)
                   (INT_MAX mod frame_back s)).
  pose proof (Z.mod_pos_bound INT_MAX (frame_back s) ltac:(lia)) as Hmod.
  assert (ctx_ok (width f) (height f) rows s0) as Hctx0.
  { destruct Hctx. constructor; simpl; try done. unfold INT_MAX in *. lia. }
  destruct (filter_frame_spec s0 rows f Hctx0 Hf)
    as (s' & f' & log & Hcall & _).
  { simpl. unfold INT_MAX in *. lia. }
  unfold filter_frame, c_mod in *. simpl in Hcall.
  destruct (Z.eqb_spec (frame_back s) 0); [lia|].
  cbn [mbind outcome_bind] in *.
  rewrite Hfc. rewrite Z.rem_mod_nonneg by (unfold INT_MAX; lia).
  rewrite Z.rem_mod_nonneg, Z.mod_mod in Hcall by lia.
  destruct (for_fuel _ _ _ _ _ _) as [st|e]; [|done].
  cbn [mbind outcome_bind]. by rewrite Z.eqb_refl.
Qed.

Lemma X15_witness :
  filter_frame
    (mkCtx 4 20 2 (RingLive [SlotLive [0; 0]; SlotLive [0; 0]]) 2 1 INT_MAX)
    (picture 8 4 200 90 60)
  = Fault SignedOverflow.
Proof.
  apply (X15_frame_count_overflows _ [[0; 0]; [0; 0]]).
  - constructor; simpl; try done; try (unfold INT_MAX; lia).
    repeat constructor; unfold SUM_MAX; lia.
  - apply picture_ok; unfold byte; lia.
  - simpl; lia.
  - reflexivity.
Defined.
